(** * WebGenAI browser client: polling, preview lifecycle, submission, download

    A shallow embedding of the React client.  Every component is a record of
    its [useState] cells together with the part of the JavaScript runtime it
    talks to (interval timers, outstanding promises) and a log of the effects
    it has issued.  Browser events (a click, a timer firing, a promise
    settling) are the constructors of an [event] type and [step] is the
    handler the source attaches to them.

    JavaScript values that may be [null] or [undefined] are [option string];
    a string is truthy when it is not empty. *)

From Stdlib Require Import List String Bool Arith NArith Lia.
Import ListNotations.
Open Scope string_scope.
Open Scope list_scope.

(** ** JavaScript values *)

Module Js.

(** [!!v] for a value that is a string, [null] or [undefined]. *)
Definition truthy (v : option string) : bool :=
  match v with
  | Some s => negb (String.eqb s "")
  | None => false
  end.

(** [a || b] where [b] is a string literal. *)
Definition or_else (a : option string) (b : string) : string :=
  match a with
  | Some s => if String.eqb s "" then b else s
  | None => b
  end.

(** Dependency comparison of [useEffect] on a single string-or-null cell. *)
Definition same (a b : option string) : bool :=
  match a, b with
  | Some x, Some y => String.eqb x y
  | None, None => true
  | _, _ => false
  end.

End Js.

(** ** services/api.js *)

Module Api.

(** Body of a status response; a field the server left out is [None]. *)
Record snapshot := {
  status : option string;
  preview_url : option string;
  zip_url : option string
}.

(** Body of a generation response. *)
Record generated := { project_id : option string }.

(** How an axios promise settles: with the response body, or rejected with
    [error.response?.data?.detail] possibly absent. *)
Inductive axios (A : Type) :=
| Resolved (data : A)
| Rejected (detail : option string).
Arguments Resolved {A} data.
Arguments Rejected {A} detail.

(** What the awaiting caller sees: the body, or [err.message]. *)
Inductive outcome (A : Type) :=
| Ok (data : A)
| Err (message : string).
Arguments Ok {A} data.
Arguments Err {A} message.

Definition default_API_URL : string := "http://localhost:8000".

(** [process.env.REACT_APP_API_URL || 'http://localhost:8000'] *)
Definition API_URL (env : option string) : string :=
  Js.or_else env default_API_URL.

(** The [try]/[catch] wrapper every request function shares. *)
Definition wrap {A} (fallback : string) (r : axios A) : outcome A :=
  match r with
  | Resolved d => Ok d
  | Rejected detail => Err (Js.or_else detail fallback)
  end.

Definition generateProject (r : axios generated) : outcome generated :=
  wrap "Generation failed" r.

Definition checkStatus (r : axios snapshot) : outcome snapshot :=
  wrap "Status check failed" r.

Definition stopPreview (r : axios unit) : outcome unit :=
  wrap "Failed to stop preview" r.

(** [downloadZip(zipUrl)]: the new value of [window.location.href]. *)
Definition downloadZip (zipUrl : string) : string := zipUrl.

(** [downloadZip(projectId)] of the later revision of the module. *)
Definition downloadZip_by_id (env : option string) (projectId : string) : string :=
  API_URL env ++ "/api/download/" ++ projectId.

End Api.

(** ** components/Preview.js (display only) and components/DownloadButton.js *)

Module View.

Inductive preview :=
| PreviewLoading
| PreviewNothing
| PreviewFrame (src : string).

(** [Preview({ previewUrl, loading })] *)
Definition Preview (previewUrl : option string) (loading : bool) : preview :=
  if loading then PreviewLoading
  else match previewUrl with
       | Some u => if String.eqb u "" then PreviewNothing else PreviewFrame u
       | None => PreviewNothing
       end.

(** A rendered button: its [disabled] attribute and where [onClick] sets
    [window.location.href]; [None] when the handler does not navigate. *)
Record button := {
  disabled : bool;
  onClick : option string
}.

(** [DownloadButton({ zipUrl, disabled })]: nothing is rendered without a
    [zipUrl]. *)
Definition DownloadButton (zipUrl : option string) (disabled : bool)
  : option button :=
  match zipUrl with
  | Some u =>
      if String.eqb u "" then None
      else Some {| disabled := disabled; onClick := Some (Api.downloadZip u) |}
  | None => None
  end.

(** [DownloadButton({ projectId })] of the other revision: always rendered. *)
Definition DownloadButton_by_id (env : option string) (projectId : option string)
  : button :=
  {| disabled := negb (Js.truthy projectId);
     onClick := match projectId with
                | Some p => if String.eqb p "" then None
                            else Some (Api.downloadZip_by_id env p)
                | None => None
                end |}.

(** What a user click does: a disabled button fires no handler. *)
Definition activate (b : option button) : option string :=
  match b with
  | Some b => if disabled b then None else onClick b
  | None => None
  end.

(** The action can be activated. *)
Definition enabled (b : option button) : bool :=
  match b with
  | Some b => negb (disabled b)
  | None => false
  end.

End View.

(** ** App.js: the root coordinator and its polling effect *)

Module App.

Record timer := {
  handle : nat;
  pid : string;
  interval : nat
}.

Inductive effect :=
| ESetInterval (h : nat) (p : string) (ms : nat)
| EClearInterval (h : nat)
| ECheckStatus (p : string).

Record state := {
  projectId : option string;
  previewUrl : option string;
  zipUrl : option string;
  loadingPreview : bool;
  error : option string;
  (* runtime *)
  timers : list timer;             (* intervals that are still armed *)
  cleanup : option nat;            (* [pollStatus] held by the effect's cleanup *)
  pending : list (nat * nat);      (* outstanding request, and its [pollStatus] *)
  next_handle : nat;
  next_req : nat;
  log : list effect
}.

Definition init : state :=
  {| projectId := None; previewUrl := None; zipUrl := None;
     loadingPreview := false; error := None;
     timers := []; cleanup := None; pending := [];
     next_handle := 0; next_req := 0; log := [] |}.

Definition setProjectId v s :=
  {| projectId := v; previewUrl := previewUrl s; zipUrl := zipUrl s;
     loadingPreview := loadingPreview s; error := error s;
     timers := timers s; cleanup := cleanup s; pending := pending s;
     next_handle := next_handle s; next_req := next_req s; log := log s |}.

Definition setPreviewUrl v s :=
  {| projectId := projectId s; previewUrl := v; zipUrl := zipUrl s;
     loadingPreview := loadingPreview s; error := error s;
     timers := timers s; cleanup := cleanup s; pending := pending s;
     next_handle := next_handle s; next_req := next_req s; log := log s |}.

Definition setZipUrl v s :=
  {| projectId := projectId s; previewUrl := previewUrl s; zipUrl := v;
     loadingPreview := loadingPreview s; error := error s;
     timers := timers s; cleanup := cleanup s; pending := pending s;
     next_handle := next_handle s; next_req := next_req s; log := log s |}.

Definition setLoadingPreview v s :=
  {| projectId := projectId s; previewUrl := previewUrl s; zipUrl := zipUrl s;
     loadingPreview := v; error := error s;
     timers := timers s; cleanup := cleanup s; pending := pending s;
     next_handle := next_handle s; next_req := next_req s; log := log s |}.

Definition setError v s :=
  {| projectId := projectId s; previewUrl := previewUrl s; zipUrl := zipUrl s;
     loadingPreview := loadingPreview s; error := v;
     timers := timers s; cleanup := cleanup s; pending := pending s;
     next_handle := next_handle s; next_req := next_req s; log := log s |}.

(** [handleGenerate(id)] *)
Definition handleGenerate (id : option string) (s : state) : state :=
  setError None (setLoadingPreview true (setProjectId id s)).

Definition POLL_INTERVAL : nat := 5000.

(** [setInterval(callback, 5000)] inside the effect; the callback closes over
    [projectId] and over the handle itself. *)
Definition setInterval (p : string) (s : state) : state :=
  let h := next_handle s in
  {| projectId := projectId s; previewUrl := previewUrl s; zipUrl := zipUrl s;
     loadingPreview := loadingPreview s; error := error s;
     timers := timers s ++ [{| handle := h; pid := p; interval := POLL_INTERVAL |}];
     cleanup := Some h; pending := pending s;
     next_handle := S h; next_req := next_req s;
     log := log s ++ [ESetInterval h p POLL_INTERVAL] |}.

(** [clearInterval(h)]; clearing a handle that is not armed changes nothing. *)
Definition clearInterval (h : nat) (s : state) : state :=
  {| projectId := projectId s; previewUrl := previewUrl s; zipUrl := zipUrl s;
     loadingPreview := loadingPreview s; error := error s;
     timers := filter (fun t => negb (Nat.eqb (handle t) h)) (timers s);
     cleanup := cleanup s; pending := pending s;
     next_handle := next_handle s; next_req := next_req s;
     log := log s ++ [EClearInterval h] |}.

Definition dropCleanup (s : state) : state :=
  {| projectId := projectId s; previewUrl := previewUrl s; zipUrl := zipUrl s;
     loadingPreview := loadingPreview s; error := error s;
     timers := timers s; cleanup := None; pending := pending s;
     next_handle := next_handle s; next_req := next_req s; log := log s |}.

(** The function the previous run of the effect returned, if it returned one. *)
Definition runCleanup (s : state) : state :=
  match cleanup s with
  | Some h => dropCleanup (clearInterval h s)
  | None => s
  end.

(** The body of [useEffect]: [if (!projectId) return;] then arm the timer. *)
Definition pollEffect (s : state) : state :=
  match projectId s with
  | Some p => if String.eqb p "" then s else setInterval p s
  | None => s
  end.

(** React after a render: when the dependency [projectId] changed, the old
    cleanup runs and then the effect body. *)
Definition commit (old : option string) (s : state) : state :=
  if Js.same old (projectId s) then s else pollEffect (runCleanup s).

Definition find_timer (h : nat) (s : state) : option timer :=
  find (fun t => Nat.eqb (handle t) h) (timers s).

Definition find_pending (r : nat) (s : state) : option nat :=
  option_map snd (find (fun q => Nat.eqb (fst q) r) (pending s)).

(** The interval callback up to its [await]: one [checkStatus(projectId)]. *)
Definition issue (t : timer) (s : state) : state :=
  {| projectId := projectId s; previewUrl := previewUrl s; zipUrl := zipUrl s;
     loadingPreview := loadingPreview s; error := error s;
     timers := timers s; cleanup := cleanup s;
     pending := pending s ++ [(next_req s, handle t)];
     next_handle := next_handle s; next_req := S (next_req s);
     log := log s ++ [ECheckStatus (pid t)] |}.

Definition forget (r : nat) (s : state) : state :=
  {| projectId := projectId s; previewUrl := previewUrl s; zipUrl := zipUrl s;
     loadingPreview := loadingPreview s; error := error s;
     timers := timers s; cleanup := cleanup s;
     pending := filter (fun q => negb (Nat.eqb (fst q) r)) (pending s);
     next_handle := next_handle s; next_req := next_req s; log := log s |}.

Definition is_ready (snap : Api.snapshot) : bool :=
  match Api.status snap with
  | Some st => String.eqb st "ready"
  | None => false
  end.

(** The interval callback after its [await], for the timer [h] it closed over. *)
Definition resume (h : nat) (o : Api.outcome Api.snapshot) (s : state) : state :=
  match o with
  | Api.Ok snap =>
      if is_ready snap then
        clearInterval h
          (setLoadingPreview false
             (setZipUrl (Api.zip_url snap)
                (setPreviewUrl (Api.preview_url snap) s)))
      else s
  | Api.Err message =>
      clearInterval h (setLoadingPreview false (setError (Some message) s))
  end.

Inductive event :=
| Generate (id : option string)              (* InputForm calls [onGenerate] *)
| Tick (h : nat)                             (* the interval [h] elapses *)
| Settle (r : nat) (a : Api.axios Api.snapshot). (* request [r] comes back *)

Definition step (s : state) (e : event) : state :=
  match e with
  | Generate id => commit (projectId s) (handleGenerate id s)
  | Tick h =>
      match find_timer h s with
      | Some t => issue t s
      | None => s
      end
  | Settle r a =>
      match find_pending r s with
      | Some h => resume h (Api.checkStatus a) (forget r s)
      | None => s
      end
  end.

Definition run (evs : list event) (s : state) : state := fold_left step evs s.

Definition reachable (s : state) : Prop := exists evs, s = run evs init.

(** The [checkStatus] calls in an effect log. *)
Definition queries (l : list effect) : list string :=
  flat_map (fun e => match e with ECheckStatus p => [p] | _ => [] end) l.

(** The state after a poll that issued one [checkStatus(p)] and whose answer
    changed nothing: only the request counter and the log moved. *)
Definition polled (p : string) (s : state) : state :=
  {| projectId := projectId s; previewUrl := previewUrl s; zipUrl := zipUrl s;
     loadingPreview := loadingPreview s; error := error s;
     timers := timers s; cleanup := cleanup s; pending := pending s;
     next_handle := next_handle s; next_req := S (next_req s);
     log := log s ++ [ECheckStatus p] |}.

(** The four cells the render reads besides the identifier. *)
Definition observable (s : state)
  : option string * option string * bool * option string :=
  (previewUrl s, zipUrl s, loadingPreview s, error s).

(** What holds of the runtime in every state the events can produce. *)
Definition armed_for_current (s : state) : Prop :=
  forall t, In t (timers s) ->
    cleanup s = Some (handle t) /\ projectId s = Some (pid t) /\
    String.eqb (pid t) "" = false /\ interval t = POLL_INTERVAL.

Definition requests_fresh (s : state) : Prop :=
  forall q, In q (pending s) -> fst q < next_req s.

Definition invariant (s : state) : Prop :=
  armed_for_current s /\ List.length (timers s) <= 1 /\ requests_fresh s.

(** The interval [h] fires once per answer, each request (numbered from
    [r]) answered before the next tick. *)
Fixpoint rounds (h r : nat) (answers : list (Api.axios Api.snapshot))
  : list event :=
  match answers with
  | a :: rest => Tick h :: Settle r a :: rounds h (S r) rest
  | [] => []
  end.

(** [n] polls that changed nothing. *)
Fixpoint polled_n (n : nat) (p : string) (s : state) : state :=
  match n with
  | S n' => polled_n n' p (polled p s)
  | O => s
  end.

Definition is_generate (e : event) : bool :=
  match e with Generate _ => true | _ => false end.

(** What [App] renders from its state. *)
Definition renderPreview (s : state) : View.preview :=
  View.Preview (previewUrl s) (loadingPreview s).

Definition renderDownload (s : state) : option View.button :=
  View.DownloadButton (zipUrl s) (loadingPreview s).

Definition renderError (s : state) : option string :=
  if Js.truthy (error s) then error s else None.

End App.

(** ** components/Preview.js (the revision that owns the preview lifecycle) *)

Module Preview.

Inductive call :=
| CStopPreview (p : string)
| CCheckStatus (p : string).

(** What is waiting on an outstanding request. *)
Inductive waiting :=
| StopThenFetch (p : string)   (* [cleanupPreviousPreview().then(fetchPreview)] *)
| StopOnly (p : string)        (* [cleanupPreviousPreview()] from the cleanup *)
| Check (p : string).          (* [await checkStatus(projectId)] in [fetchPreview] *)

(** How a request settles; which body it carries depends on the request. *)
Inductive settled :=
| StopSettled (a : Api.axios unit)
| CheckSettled (a : Api.axios Api.snapshot).

Record state := {
  projectId : option string;       (* the prop of the last render *)
  previewUrl : option string;
  error : option string;
  loading : bool;
  (* runtime *)
  cleanup : option string;         (* [projectId] the returned cleanup closed over *)
  pending : list (nat * waiting);
  next_req : nat;
  calls : list call;               (* requests sent, oldest first *)
  warnings : list string           (* [console.warn] lines *)
}.

Definition init : state :=
  {| projectId := None; previewUrl := None; error := None; loading := false;
     cleanup := None; pending := []; next_req := 0; calls := [];
     warnings := [] |}.

Definition setProp v s :=
  {| projectId := v; previewUrl := previewUrl s; error := error s;
     loading := loading s; cleanup := cleanup s; pending := pending s;
     next_req := next_req s; calls := calls s; warnings := warnings s |}.

Definition setPreviewUrl v s :=
  {| projectId := projectId s; previewUrl := v; error := error s;
     loading := loading s; cleanup := cleanup s; pending := pending s;
     next_req := next_req s; calls := calls s; warnings := warnings s |}.

Definition setError v s :=
  {| projectId := projectId s; previewUrl := previewUrl s; error := v;
     loading := loading s; cleanup := cleanup s; pending := pending s;
     next_req := next_req s; calls := calls s; warnings := warnings s |}.

Definition setLoading v s :=
  {| projectId := projectId s; previewUrl := previewUrl s; error := error s;
     loading := v; cleanup := cleanup s; pending := pending s;
     next_req := next_req s; calls := calls s; warnings := warnings s |}.

Definition setCleanup v s :=
  {| projectId := projectId s; previewUrl := previewUrl s; error := error s;
     loading := loading s; cleanup := v; pending := pending s;
     next_req := next_req s; calls := calls s; warnings := warnings s |}.

Definition warn (m : string) s :=
  {| projectId := projectId s; previewUrl := previewUrl s; error := error s;
     loading := loading s; cleanup := cleanup s; pending := pending s;
     next_req := next_req s; calls := calls s;
     warnings := warnings s ++ [m] |}.

(** Send a request and park its continuation. *)
Definition send (c : call) (w : waiting) s :=
  {| projectId := projectId s; previewUrl := previewUrl s; error := error s;
     loading := loading s; cleanup := cleanup s;
     pending := pending s ++ [(next_req s, w)];
     next_req := S (next_req s); calls := calls s ++ [c];
     warnings := warnings s |}.

Definition forget (r : nat) s :=
  {| projectId := projectId s; previewUrl := previewUrl s; error := error s;
     loading := loading s; cleanup := cleanup s;
     pending := filter (fun q => negb (Nat.eqb (fst q) r)) (pending s);
     next_req := next_req s; calls := calls s; warnings := warnings s |}.

(** [cleanupPreviousPreview] after its [await]: a failure is only logged. *)
Definition cleanupPreviousPreview_done (o : Api.outcome unit) s :=
  match o with
  | Api.Ok _ => s
  | Api.Err message => warn ("Failed to stop previous preview: " ++ message) s
  end.

(** [fetchPreview] up to its [await]. *)
Definition fetchPreview (p : string) s :=
  send (CCheckStatus p) (Check p) (setError None (setLoading true s)).

(** [fetchPreview] after its [await], [finally] included. *)
Definition fetchPreview_done (o : Api.outcome Api.snapshot) s :=
  setLoading false
    match o with
    | Api.Ok response => setPreviewUrl (Api.preview_url response) s
    | Api.Err message => setError (Some message) s
    end.

(** The body of [useEffect] for the [projectId] of this render. *)
Definition effect s :=
  match projectId s with
  | Some p =>
      if String.eqb p "" then setCleanup None s
      else setCleanup (Some p) (send (CStopPreview p) (StopThenFetch p) s)
  | None => setCleanup None s
  end.

(** The cleanup the previous run of the effect returned. *)
Definition runCleanup s :=
  match cleanup s with
  | Some p => send (CStopPreview p) (StopOnly p) s
  | None => s
  end.

Definition find_pending (r : nat) s : option waiting :=
  option_map snd (find (fun q => Nat.eqb (fst q) r) (pending s)).

(** Default bodies, for a response of the wrong shape. *)
Definition as_stop (x : settled) : Api.axios unit :=
  match x with
  | StopSettled a => a
  | CheckSettled (Api.Resolved _) => Api.Resolved tt
  | CheckSettled (Api.Rejected d) => Api.Rejected d
  end.

Definition as_check (x : settled) : Api.axios Api.snapshot :=
  match x with
  | CheckSettled a => a
  | StopSettled (Api.Resolved _) =>
      Api.Resolved {| Api.status := None; Api.preview_url := None;
                      Api.zip_url := None |}
  | StopSettled (Api.Rejected d) => Api.Rejected d
  end.

Inductive event :=
| Render (id : option string)      (* mounted or re-rendered with this prop *)
| Settle (r : nat) (x : settled).  (* request [r] comes back *)

Definition step (s : state) (e : event) : state :=
  match e with
  | Render id =>
      if Js.same (projectId s) id then s
      else effect (setProp id (runCleanup s))
  | Settle r x =>
      match find_pending r s with
      | Some (StopThenFetch p) =>
          fetchPreview p
            (cleanupPreviousPreview_done (Api.stopPreview (as_stop x)) (forget r s))
      | Some (StopOnly p) =>
          cleanupPreviousPreview_done (Api.stopPreview (as_stop x)) (forget r s)
      | Some (Check p) =>
          fetchPreview_done (Api.checkStatus (as_check x)) (forget r s)
      | None => s
      end
  end.

Definition run (evs : list event) (s : state) : state := fold_left step evs s.

Definition reachable (s : state) : Prop := exists evs, s = run evs init.

(** What holds of the runtime in every state the events can produce: request
    numbers are not reused, and the cleanup on hold is the one for the
    identifier of the last render. *)
Definition requests_fresh (s : state) : Prop :=
  forall q, In q (pending s) -> fst q < next_req s.

Definition invariant (s : state) : Prop :=
  requests_fresh s /\
  cleanup s = (if Js.truthy (projectId s) then projectId s else None).

(** What the component returns, in the order of its [if]s. *)
Inductive view :=
| VLoading                    (* Loading preview... *)
| VError (message : string)   (* Error: {error} *)
| VNoPreview                  (* No preview available *)
| VFrame (src : string).      (* the iframe *)

Definition render (s : state) : view :=
  if loading s then VLoading
  else match error s with
       | Some m => if String.eqb m "" then
                     match previewUrl s with
                     | Some u => if String.eqb u "" then VNoPreview else VFrame u
                     | None => VNoPreview
                     end
                   else VError m
       | None =>
           match previewUrl s with
           | Some u => if String.eqb u "" then VNoPreview else VFrame u
           | None => VNoPreview
           end
       end.

(** How often a call occurs in the record of calls. *)
Definition call_eqb (a b : call) : bool :=
  match a, b with
  | CStopPreview p, CStopPreview q => String.eqb p q
  | CCheckStatus p, CCheckStatus q => String.eqb p q
  | _, _ => false
  end.

Definition occurrences (c : call) (l : list call) : nat :=
  List.length (filter (call_eqb c) l).

(** Effect continuations for [p] still parked on their stop request. *)
Definition parked_fetches (p : string) (l : list (nat * waiting)) : nat :=
  List.length
    (filter (fun q => match snd q with
                      | StopThenFetch p' => String.eqb p p'
                      | _ => false
                      end) l).

End Preview.

(** ** components/InputForm.js *)

Module InputForm.

(** The description is the one string the client looks inside ([trim]), so it
    is kept as its UTF-16 code units. *)
Definition code_unit := N.
Definition text := list code_unit.

(** ECMAScript [WhiteSpace] and [LineTerminator], the code units
    [String.prototype.trim] strips. *)
Definition is_white_space (c : code_unit) : bool :=
  (N.eqb c 9 || N.eqb c 10 || N.eqb c 11 || N.eqb c 12 || N.eqb c 13
   || N.eqb c 32 || N.eqb c 160 || N.eqb c 5760
   || (N.leb 8192 c && N.leb c 8202)
   || N.eqb c 8232 || N.eqb c 8233 || N.eqb c 8239 || N.eqb c 8287
   || N.eqb c 12288 || N.eqb c 65279)%bool.

Fixpoint trimStart (d : text) : text :=
  match d with
  | c :: d' => if is_white_space c then trimStart d' else d
  | [] => []
  end.

Definition trimEnd (d : text) : text := rev (trimStart (rev d)).

Definition trim (d : text) : text := trimEnd (trimStart d).

(** [!description.trim()] *)
Definition blank (d : text) : bool :=
  match trim d with
  | [] => true
  | _ :: _ => false
  end.

Inductive effect :=
| EGenerateProject (description : text)   (* POST /api/generate *)
| EOnGenerate (id : option string).       (* the parent's [onGenerate] *)

Record state := {
  description : text;
  loading : bool;
  error : option string;
  (* runtime *)
  pending : list nat;              (* [handleGenerate] runs parked at [await] *)
  next_req : nat;
  log : list effect
}.

Definition init : state :=
  {| description := []; loading := false; error := None;
     pending := []; next_req := 0; log := [] |}.

Definition setDescription v s :=
  {| description := v; loading := loading s; error := error s;
     pending := pending s; next_req := next_req s; log := log s |}.

Definition setLoading v s :=
  {| description := description s; loading := v; error := error s;
     pending := pending s; next_req := next_req s; log := log s |}.

Definition setError v s :=
  {| description := description s; loading := loading s; error := v;
     pending := pending s; next_req := next_req s; log := log s |}.

Definition emit (e : effect) s :=
  {| description := description s; loading := loading s; error := error s;
     pending := pending s; next_req := next_req s; log := log s ++ [e] |}.

Definition park s :=
  {| description := description s; loading := loading s; error := error s;
     pending := pending s ++ [next_req s]; next_req := S (next_req s);
     log := log s |}.

Definition forget (r : nat) s :=
  {| description := description s; loading := loading s; error := error s;
     pending := filter (fun q => negb (Nat.eqb q r)) (pending s);
     next_req := next_req s; log := log s |}.

(** [handleGenerate] up to its [await]. *)
Definition handleGenerate (s : state) : state :=
  if blank (description s) then s
  else park (emit (EGenerateProject (description s))
               (setError None (setLoading true s))).

(** [handleGenerate] after its [await], [finally] included. *)
Definition handleGenerate_done (o : Api.outcome Api.generated) (s : state) : state :=
  setLoading false
    match o with
    | Api.Ok data => emit (EOnGenerate (Api.project_id data)) s
    | Api.Err message => setError (Some message) s
    end.

Inductive event :=
| Change (d : text)                              (* typing in the textarea *)
| Click                                          (* the Generate button *)
| Settle (r : nat) (a : Api.axios Api.generated). (* request [r] comes back *)

(** The button carries [disabled={loading}]: a click on it then fires
    nothing. *)
Definition step (s : state) (e : event) : state :=
  match e with
  | Change d => setDescription d s
  | Click => if loading s then s else handleGenerate s
  | Settle r a =>
      if existsb (Nat.eqb r) (pending s)
      then handleGenerate_done (Api.generateProject a) (forget r s)
      else s
  end.

Definition run (evs : list event) (s : state) : state := fold_left step evs s.

(** The [generateProject] calls in an effect log. *)
Definition submissions (l : list effect) : list text :=
  flat_map (fun e => match e with EGenerateProject d => [d] | _ => [] end) l.

(** The identifiers handed to [onGenerate] in an effect log. *)
Definition reports (l : list effect) : list (option string) :=
  flat_map (fun e => match e with EOnGenerate id => [id] | _ => [] end) l.

Definition reachable (s : state) : Prop := exists evs, s = run evs init.

(** What the component returns: the textarea's value, the button and the
    error line. *)
Record view := {
  textarea : text;
  button_label : string;
  button_disabled : bool;
  error_line : option string
}.

(** Either a request is out and the flag is up, or neither. *)
Definition in_step (s : state) : Prop :=
  (loading s = true /\ exists r, pending s = [r]) \/
  (loading s = false /\ pending s = []).

Definition render (s : state) : view :=
  {| textarea := description s;
     button_label := if loading s then "Generating..." else "Generate";
     button_disabled := loading s;
     error_line := if Js.truthy (error s) then error s else None |}.

End InputForm.

(** ** App.js, the revision without polling *)

Module AppV1.

Record state := {
  projectId : option string;
  error : option string
}.

Definition init : state := {| projectId := None; error := None |}.

(** [handleGenerate(id)] *)
Definition handleGenerate (id : option string) (s : state) : state :=
  {| projectId := id; error := None |}.

(** What is below the input form: the prop of the mounted [Preview], the
    download button, the error line; [projectId && ...] mounts the first two. *)
Record view := {
  preview : option string;
  download : option View.button;
  error_line : option string
}.

Definition render (env : option string) (s : state) : view :=
  {| preview := if Js.truthy (projectId s) then projectId s else None;
     download := if Js.truthy (projectId s)
                 then Some (View.DownloadButton_by_id env (projectId s))
                 else None;
     error_line := if Js.truthy (error s) then error s else None |}.

(** The identifiers the input form reports, in order. *)
Definition run (ids : list (option string)) (s : state) : state :=
  fold_left (fun s id => handleGenerate id s) ids s.

End AppV1.

(** ** The page: the input form wired to the polling coordinator *)

Module Client.

Record state := {
  form : InputForm.state;
  app : App.state
}.

Definition init : state := {| form := InputForm.init; app := App.init |}.

Inductive event :=
| Form (e : InputForm.event)                       (* typing, click, answer *)
| Tick (h : nat)                                   (* the interval elapses *)
| Status (r : nat) (a : Api.axios Api.snapshot).   (* a status answer *)

(** [<InputForm onGenerate={handleGenerate} />]: every call of the prop the
    form makes is a call of the coordinator's [handleGenerate]. *)
Definition deliver (fx : list InputForm.effect) (a : App.state) : App.state :=
  fold_left (fun a id => App.step a (App.Generate id)) (InputForm.reports fx) a.

Definition step (c : state) (e : event) : state :=
  match e with
  | Form e =>
      let f' := InputForm.step (form c) e in
      {| form := f';
         app := deliver (skipn (List.length (InputForm.log (form c)))
                           (InputForm.log f'))
                  (app c) |}
  | Tick h => {| form := form c; app := App.step (app c) (App.Tick h) |}
  | Status r a => {| form := form c; app := App.step (app c) (App.Settle r a) |}
  end.

Definition run (evs : list event) (c : state) : state := fold_left step evs c.

Definition reachable (c : state) : Prop := exists evs, c = run evs init.

(** The interval [h] fires once per answer, each request (numbered from
    [r]) answered before the next tick. *)
Fixpoint polls (h r : nat) (answers : list (Api.axios Api.snapshot))
  : list event :=
  match answers with
  | a :: rest => Tick h :: Status r a :: polls h (S r) rest
  | [] => []
  end.

End Client.

(** * Properties *)

(** ** JavaScript values *)

Lemma same_eq (a b : option string) : Js.same a b = true -> a = b.
Proof.
  destruct a as [x|], b as [y|]; simpl; try discriminate; auto.
  intros H. apply String.eqb_eq in H. now subst.
Qed.

Lemma same_refl (a : option string) : Js.same a a = true.
Proof. destruct a; simpl; auto using String.eqb_refl. Qed.

Lemma or_else_nonempty (a : option string) (b : string) :
  String.eqb b "" = false -> String.eqb (Js.or_else a b) "" = false.
Proof.
  intros Hb. destruct a as [s|]; simpl; auto.
  destruct (String.eqb s "") eqn:E; auto.
Qed.

(** ** The root coordinator *)

Module AppFacts.
Import App.

Lemma filter_handle_all (h : nat) (l : list timer) :
  (forall t, In t l -> handle t = h) ->
  filter (fun t => negb (Nat.eqb (handle t) h)) l = [].
Proof.
  induction l as [|t l IH]; simpl; intros H; auto.
  rewrite (H t (or_introl eq_refl)), Nat.eqb_refl. simpl.
  apply IH. intros; apply H; auto.
Qed.

Lemma filter_fresh (r : nat) (l : list (nat * nat)) :
  (forall q, In q l -> fst q < r) ->
  filter (fun q => negb (Nat.eqb (fst q) r)) l = l.
Proof.
  induction l as [|q l IH]; simpl; intros H; auto.
  assert (fst q < r) as Hq by (apply H; auto).
  destruct (Nat.eqb_spec (fst q) r); [lia|]. simpl.
  f_equal. apply IH. intros; apply H; auto.
Qed.

Lemma find_fresh (r h : nat) (l : list (nat * nat)) :
  (forall q, In q l -> fst q < r) ->
  find (fun q => Nat.eqb (fst q) r) (l ++ [(r, h)]) = Some (r, h).
Proof.
  induction l as [|q l IH]; simpl; intros H.
  - now rewrite Nat.eqb_refl.
  - assert (fst q < r) as Hq by (apply H; auto).
    destruct (Nat.eqb_spec (fst q) r); [lia|].
    apply IH. intros; apply H; auto.
Qed.

(** Once the cleanup has run no interval is armed. *)
Lemma runCleanup_disarms (s : state) :
  (forall t, In t (timers s) -> cleanup s = Some (handle t)) ->
  timers (runCleanup s) = [].
Proof.
  intros Ha. unfold runCleanup. destruct (cleanup s) as [h|] eqn:Ec; simpl.
  - apply filter_handle_all. intros t Ht.
    specialize (Ha t Ht). congruence.
  - destruct (timers s) as [|t l] eqn:Et; auto.
    specialize (Ha t (or_introl eq_refl)). congruence.
Qed.

Lemma runCleanup_frame (s : state) :
  projectId (runCleanup s) = projectId s /\
  pending (runCleanup s) = pending s /\
  next_req (runCleanup s) = next_req s /\
  next_handle (runCleanup s) = next_handle s /\
  observable (runCleanup s) = observable s.
Proof. unfold runCleanup. destruct (cleanup s); simpl; auto. Qed.

Lemma invariant_init : invariant init.
Proof.
  unfold invariant, armed_for_current, requests_fresh. simpl.
  split; [intros t []|split; [lia|intros q []]].
Qed.

Lemma adopt_disarms (s : state) (id : option string) :
  armed_for_current s -> timers (runCleanup (handleGenerate id s)) = [].
Proof.
  intros Ha. apply runCleanup_disarms. simpl. intros t Ht.
  now destruct (Ha t Ht).
Qed.

(** The state an adopted truthy identifier leaves behind. *)
Lemma generate_fresh (s : state) (p : string) :
  armed_for_current s ->
  Js.same (projectId s) (Some p) = false ->
  String.eqb p "" = false ->
  let s' := step s (Generate (Some p)) in
  timers s' = [{| handle := next_handle s; pid := p; interval := POLL_INTERVAL |}] /\
  cleanup s' = Some (next_handle s) /\
  projectId s' = Some p /\
  pending s' = pending s /\
  next_req s' = next_req s /\
  next_handle s' = S (next_handle s) /\
  observable s' = (previewUrl s, zipUrl s, true, None) /\
  log s' = log (runCleanup (handleGenerate (Some p) s))
             ++ [ESetInterval (next_handle s) p POLL_INTERVAL].
Proof.
  intros Ha Hs Hp. simpl. unfold commit. simpl. rewrite Hs.
  unfold pollEffect.
  pose proof (adopt_disarms s (Some p) Ha) as Ht.
  destruct (runCleanup_frame (handleGenerate (Some p) s))
    as (E1 & E2 & E3 & E4 & E5).
  rewrite E1. simpl. rewrite Hp. simpl. rewrite Ht, E2, E3, E4.
  unfold observable in *. simpl in E1, E5.
  repeat split; try reflexivity; auto.
Qed.

(** Disarming a timer, with the cells the invariant reads left alone. *)
Lemma invariant_disarm (h : nat) (s0 s1 : state) :
  invariant s0 ->
  projectId s1 = projectId s0 -> cleanup s1 = cleanup s0 ->
  pending s1 = pending s0 -> next_req s1 = next_req s0 ->
  timers s1 = filter (fun t => negb (Nat.eqb (handle t) h)) (timers s0) ->
  invariant s1.
Proof.
  intros (A0 & L0 & F0) P C Q N T.
  unfold invariant, armed_for_current, requests_fresh.
  rewrite T, P, C, Q, N. split; [|split].
  - intros t H. apply filter_In in H as [H _]. now apply A0.
  - pose proof (filter_length_le (fun t => negb (Nat.eqb (handle t) h))
                  (timers s0)). lia.
  - exact F0.
Qed.

Lemma invariant_forget (r : nat) (s : state) :
  invariant s -> invariant (forget r s).
Proof.
  intros (Ha & Hl & Hf).
  unfold invariant, armed_for_current, requests_fresh. simpl.
  split; [exact Ha|split; [exact Hl|]].
  intros q Hq. apply filter_In in Hq as [Hq _]. now apply Hf.
Qed.

Lemma invariant_issue (t : timer) (s : state) :
  invariant s -> invariant (issue t s).
Proof.
  intros (Ha & Hl & Hf).
  unfold invariant, armed_for_current, requests_fresh. simpl.
  split; [exact Ha|split; [exact Hl|]].
  intros q Hq. apply in_app_or in Hq as [Hq|[<-|[]]]; simpl; auto.
  specialize (Hf q Hq). lia.
Qed.

Lemma invariant_resume (h : nat) (o : Api.outcome Api.snapshot) (s : state) :
  invariant s -> invariant (resume h o s).
Proof.
  intros Hi. unfold resume. destruct o as [snap|msg].
  - destruct (is_ready snap); auto.
    eapply (invariant_disarm h); [exact Hi|..]; reflexivity.
  - eapply (invariant_disarm h); [exact Hi|..]; reflexivity.
Qed.

Lemma invariant_generate (s : state) (id : option string) :
  invariant s -> invariant (step s (Generate id)).
Proof.
  intros (Ha & Hl & Hf). simpl. unfold commit.
  destruct (Js.same (projectId s) (projectId (handleGenerate id s))) eqn:E.
  - apply same_eq in E. simpl in E.
    unfold invariant, armed_for_current, requests_fresh. simpl.
    rewrite <- E. auto.
  - pose proof (adopt_disarms s id Ha) as Ht.
    destruct (runCleanup_frame (handleGenerate id s)) as (E1 & E2 & E3 & _).
    simpl in E1, E2, E3.
    assert (invariant (runCleanup (handleGenerate id s))) as Hi.
    { unfold invariant, armed_for_current, requests_fresh.
      rewrite Ht, E2, E3. simpl. split; [intros t []|split; [lia|exact Hf]]. }
    unfold pollEffect. rewrite E1.
    destruct id as [p|]; auto.
    destruct (String.eqb p "") eqn:Ep; auto.
    unfold invariant, armed_for_current, requests_fresh. simpl.
    rewrite Ht, E1, E2, E3. simpl. split; [|split; [lia|exact Hf]].
    intros t [<-|[]]. simpl. auto.
Qed.

Lemma invariant_step (s : state) (e : event) :
  invariant s -> invariant (step s e).
Proof.
  intros Hi. destruct e as [id|h|r a].
  - now apply invariant_generate.
  - simpl. destruct (find_timer h s) as [t|]; auto using invariant_issue.
  - simpl. destruct (find_pending r s) as [h|]; auto.
    apply invariant_resume, invariant_forget, Hi.
Qed.

Lemma invariant_run (evs : list event) (s : state) :
  invariant s -> invariant (run evs s).
Proof.
  revert s. induction evs as [|e evs IH]; simpl; intros s H; auto.
  apply IH, invariant_step, H.
Qed.

Lemma reachable_invariant (s : state) : reachable s -> invariant s.
Proof. intros [evs ->]. apply invariant_run, invariant_init. Qed.

(** *** One poll round *)

Lemma queries_app (l1 l2 : list effect) :
  queries (l1 ++ l2) = queries l1 ++ queries l2.
Proof. unfold queries. apply flat_map_app. Qed.

Lemma forget_issue (t : timer) (s : state) :
  requests_fresh s -> forget (next_req s) (issue t s) = polled (pid t) s.
Proof.
  intros Hf. unfold forget, issue, polled. simpl. f_equal.
  rewrite filter_app, (filter_fresh _ _ Hf). simpl.
  rewrite Nat.eqb_refl. simpl. apply app_nil_r.
Qed.

Lemma find_pending_issue (t : timer) (s : state) :
  requests_fresh s -> find_pending (next_req s) (issue t s) = Some (handle t).
Proof.
  intros Hf. unfold find_pending, issue. simpl.
  now rewrite (find_fresh _ _ _ Hf).
Qed.

(** A tick of the armed timer followed by the answer to the request it sent. *)
Lemma poll_round (s : state) (t : timer) (a : Api.axios Api.snapshot) :
  requests_fresh s -> find_timer (handle t) s = Some t ->
  step (step s (Tick (handle t))) (Settle (next_req s) a)
  = resume (handle t) (Api.checkStatus a) (polled (pid t) s).
Proof.
  intros Hf Ht. simpl. rewrite Ht.
  rewrite (find_pending_issue t s Hf), (forget_issue t s Hf). reflexivity.
Qed.

Lemma polled_fresh (p : string) (s : state) :
  requests_fresh s -> requests_fresh (polled p s).
Proof. intros Hf q Hq. specialize (Hf q Hq). simpl in *. lia. Qed.

(** With no interval armed nothing but a new identifier sends a query. *)
Lemma idle_quiet (evs : list event) (s : state) :
  timers s = [] -> forallb (fun e => negb (is_generate e)) evs = true ->
  timers (run evs s) = [] /\ queries (log (run evs s)) = queries (log s).
Proof.
  revert s. induction evs as [|e evs IH]; simpl; intros s Ht Hg; auto.
  apply andb_prop in Hg as [He Hg].
  assert (timers (step s e) = [] /\ queries (log (step s e)) = queries (log s))
    as [Ht' Hq'].
  { destruct e as [id|h|r a]; try discriminate; simpl.
    - unfold find_timer. rewrite Ht. simpl. auto.
    - destruct (find_pending r s) as [h|]; auto.
      unfold resume. destruct (Api.checkStatus a) as [snap|msg];
        [destruct (is_ready snap)|]; simpl; rewrite ?Ht, ?queries_app;
        simpl; rewrite ?app_nil_r; auto. }
  destruct (IH (step s e) Ht' Hg) as [H1 H2]. split; congruence.
Qed.

Lemma poll_not_ready (s : state) (t : timer) (snap : Api.snapshot) :
  requests_fresh s -> find_timer (handle t) s = Some t ->
  is_ready snap = false ->
  step (step s (Tick (handle t))) (Settle (next_req s) (Api.Resolved snap))
  = polled (pid t) s.
Proof.
  intros Hf Ht Hn. rewrite (poll_round s t _ Hf Ht). simpl. now rewrite Hn.
Qed.

Lemma poll_ready (s : state) (t : timer) (snap : Api.snapshot) :
  requests_fresh s -> find_timer (handle t) s = Some t ->
  is_ready snap = true ->
  step (step s (Tick (handle t))) (Settle (next_req s) (Api.Resolved snap))
  = clearInterval (handle t)
      (setLoadingPreview false
         (setZipUrl (Api.zip_url snap)
            (setPreviewUrl (Api.preview_url snap) (polled (pid t) s)))).
Proof.
  intros Hf Ht Hr. rewrite (poll_round s t _ Hf Ht). simpl. now rewrite Hr.
Qed.

(** *** Polling until ready *)

(** C1.  Adopt an identifier [p]; let the timer fire four times, each request
    answered before the next tick, the first three answers not ready and the
    fourth ready.  Then the effect armed one interval of 5000 ms, exactly four
    [checkStatus(p)] calls were sent, the last thing done was to clear that
    interval, no interval is armed any more, the preview and download
    references are those of the ready snapshot, and whatever ticks or answers
    follow send no further query. *)
Theorem poll_three_not_ready_then_ready
  (s : state) (p : string) (n1 n2 n3 rd : Api.snapshot) :
  reachable s ->
  String.eqb p "" = false ->
  Js.same (projectId s) (Some p) = false ->
  is_ready n1 = false -> is_ready n2 = false -> is_ready n3 = false ->
  is_ready rd = true ->
  let h := next_handle s in
  let r := next_req s in
  let s0 := step s (Generate (Some p)) in
  let s4 := run [Tick h; Settle r (Api.Resolved n1);
                 Tick h; Settle (r + 1) (Api.Resolved n2);
                 Tick h; Settle (r + 2) (Api.Resolved n3);
                 Tick h; Settle (r + 3) (Api.Resolved rd)] s0 in
  timers s0 = [{| handle := h; pid := p; interval := 5000 |}] /\
  queries (log s4) = queries (log s0) ++ [p; p; p; p] /\
  (exists l, log s4 = l ++ [ECheckStatus p; EClearInterval h]) /\
  timers s4 = [] /\
  previewUrl s4 = Api.preview_url rd /\
  zipUrl s4 = Api.zip_url rd /\
  loadingPreview s4 = false /\
  forall evs, forallb (fun e => negb (is_generate e)) evs = true ->
    queries (log (run evs s4)) = queries (log s4).
Proof.
  intros Hr Hp Hs H1 H2 H3 H4 h r s0 s4.
  pose proof (reachable_invariant s Hr) as (Ha & _ & _).
  assert (invariant s0) as (_ & _ & Hf0)
      by (apply invariant_step, reachable_invariant, Hr).
  destruct (generate_fresh s p Ha Hs Hp)
    as (Et & _ & _ & _ & En & _ & _ & _).
  fold s0 in Et, En. fold h in Et.
  set (t := {| handle := h; pid := p; interval := POLL_INTERVAL |}) in *.
  assert (forall s1, timers s1 = [t] -> find_timer (handle t) s1 = Some t) as Hfind.
  { intros s1 E. unfold find_timer. rewrite E. simpl. now rewrite Nat.eqb_refl. }
  assert (s4 = clearInterval h
                 (setLoadingPreview false
                    (setZipUrl (Api.zip_url rd)
                       (setPreviewUrl (Api.preview_url rd)
                          (polled p (polled p (polled p (polled p s0)))))))) as E4.
  { subst s4. cbn [run fold_left].
    change h with (handle t). subst r. rewrite <- En.
    rewrite (poll_not_ready s0 t n1 Hf0 (Hfind _ Et) H1).
    replace (next_req s0 + 1) with (next_req (polled (pid t) s0))
      by (simpl; lia).
    rewrite (poll_not_ready _ t n2); auto using polled_fresh.
    replace (next_req s0 + 2) with (next_req (polled (pid t) (polled (pid t) s0)))
      by (simpl; lia).
    rewrite (poll_not_ready _ t n3); auto using polled_fresh.
    replace (next_req s0 + 3)
      with (next_req (polled (pid t) (polled (pid t) (polled (pid t) s0))))
      by (simpl; lia).
    rewrite (poll_ready _ t rd); auto using polled_fresh. }
  assert (timers s4 = []) as Et4.
  { rewrite E4. simpl. rewrite Et. simpl. now rewrite Nat.eqb_refl. }
  split; [exact Et|]. split.
  { rewrite E4. simpl. rewrite !queries_app. simpl.
    rewrite <- !app_assoc. reflexivity. }
  split.
  { rewrite E4. simpl.
    exists (log s0 ++ [ECheckStatus p; ECheckStatus p; ECheckStatus p]).
    rewrite <- !app_assoc. reflexivity. }
  split; [exact Et4|].
  split; [rewrite E4; reflexivity|].
  split; [rewrite E4; reflexivity|].
  split; [rewrite E4; reflexivity|].
  intros evs Hg. now apply idle_quiet.
Qed.

Lemma poll_three_not_ready_then_ready_witness :
  let pending_snap := {| Api.status := Some "pending"; Api.preview_url := None;
                         Api.zip_url := None |} in
  let ready_snap := {| Api.status := Some "ready";
                       Api.preview_url := Some "http://h/p1/preview";
                       Api.zip_url := Some "http://h/p1.zip" |} in
  let s4 := run [Generate (Some "p1");
                 Tick 0; Settle 0 (Api.Resolved pending_snap);
                 Tick 0; Settle 1 (Api.Resolved pending_snap);
                 Tick 0; Settle 2 (Api.Resolved pending_snap);
                 Tick 0; Settle 3 (Api.Resolved ready_snap)] init in
  queries (log s4) = ["p1"; "p1"; "p1"; "p1"] /\ timers s4 = [] /\
  previewUrl s4 = Some "http://h/p1/preview" /\
  zipUrl s4 = Some "http://h/p1.zip".
Proof.
  intros pending_snap ready_snap.
  destruct (poll_three_not_ready_then_ready init "p1"
              pending_snap pending_snap pending_snap ready_snap
              (ex_intro _ [] eq_refl) eq_refl eq_refl eq_refl eq_refl eq_refl
              eq_refl)
    as (_ & Hq & _ & Ht & Hp & Hz & _).
  vm_compute in Hq, Ht, Hp, Hz. vm_compute.
  exact (conj Hq (conj Ht (conj Hp Hz))).
Defined.

(** *** A failed poll *)

Lemma queries_settle (s : state) (r : nat) (a : Api.axios Api.snapshot) :
  queries (log (step s (Settle r a))) = queries (log s).
Proof.
  simpl. destruct (find_pending r s) as [h|]; auto.
  unfold resume. destruct (Api.checkStatus a) as [snap|msg];
    [destruct (is_ready snap)|]; simpl; rewrite ?queries_app; simpl;
    rewrite ?app_nil_r; auto.
Qed.

Lemma queries_generate (s : state) (id : option string) :
  queries (log (step s (Generate id))) = queries (log s).
Proof.
  simpl. unfold commit.
  destruct (Js.same (projectId s) (projectId (handleGenerate id s))); auto.
  unfold pollEffect, runCleanup. simpl.
  destruct (cleanup s) as [h|]; simpl; destruct id as [p|]; simpl; auto;
    try destruct (String.eqb p ""); simpl; rewrite ?queries_app; simpl;
    rewrite ?app_nil_r; auto.
Qed.

(** C3.  A [checkStatus] of the current session's timer is rejected: the
    interval is cleared and none stays armed, the message (the server's
    detail, or the fallback) is stored and rendered, loading is switched
    off, and until a new identifier is adopted no further query is sent,
    whatever ticks or answers arrive. *)
Theorem failed_poll_stops_polling
  (s : state) (r h : nat) (detail : option string) :
  reachable s ->
  find_pending r s = Some h ->
  cleanup s = Some h ->
  let s' := step s (Settle r (Api.Rejected detail)) in
  log s' = log s ++ [EClearInterval h] /\
  timers s' = [] /\
  error s' = Some (Js.or_else detail "Status check failed") /\
  renderError s' = error s' /\
  loadingPreview s' = false /\
  forall evs, forallb (fun e => negb (is_generate e)) evs = true ->
    queries (log (run evs s')) = queries (log s').
Proof.
  intros Hr Hq Hc s'.
  pose proof (reachable_invariant s Hr) as (Ha & _ & _).
  assert (s' = clearInterval h
                 (setLoadingPreview false
                    (setError (Some (Js.or_else detail "Status check failed"))
                       (forget r s)))) as E.
  { subst s'. simpl. now rewrite Hq. }
  assert (timers s' = []) as Et.
  { rewrite E. simpl. apply filter_handle_all. intros t Ht.
    destruct (Ha t Ht) as (Hc' & _). congruence. }
  split; [rewrite E; reflexivity|].
  split; [exact Et|].
  split; [rewrite E; reflexivity|].
  split.
  { rewrite E. unfold renderError. simpl.
    now rewrite (or_else_nonempty detail "Status check failed" eq_refl). }
  split; [rewrite E; reflexivity|].
  intros evs Hg. now apply idle_quiet.
Qed.

Lemma failed_poll_stops_polling_witness :
  let pending_snap := {| Api.status := Some "pending"; Api.preview_url := None;
                         Api.zip_url := None |} in
  let s := run [Generate (Some "p1");
                Tick 0; Settle 0 (Api.Resolved pending_snap); Tick 0] init in
  let s' := step s (Settle 1 (Api.Rejected (Some "boom"))) in
  timers s' = [] /\ error s' = Some "boom" /\
  queries (log (run [Tick 0; Tick 0] s')) = ["p1"; "p1"].
Proof.
  intros pending_snap s s'.
  destruct (failed_poll_stops_polling s 1 0 (Some "boom")
              (ex_intro _ _ eq_refl) eq_refl eq_refl)
    as (_ & Ht & He & _ & _ & Hq).
  exact (conj Ht (conj He (Hq [Tick 0; Tick 0] eq_refl))).
Defined.

(** *** A poll that is not ready yet *)

Lemma tick_frame (s : state) (h : nat) :
  observable (step s (Tick h)) = observable s /\
  timers (step s (Tick h)) = timers s /\
  projectId (step s (Tick h)) = projectId s.
Proof. simpl. destruct (find_timer h s); auto. Qed.

(** C9.  The interval fires and an answer whose status is not ['ready']
    comes back: preview reference, download reference, loading flag and
    error slot are what they were before the tick, the identifier too, and
    the same intervals are armed. *)
Theorem not_ready_poll_changes_nothing
  (s : state) (h r : nat) (snap : Api.snapshot) :
  is_ready snap = false ->
  let s' := step (step s (Tick h)) (Settle r (Api.Resolved snap)) in
  observable s' = observable s /\
  timers s' = timers s /\
  projectId s' = projectId s.
Proof.
  intros Hn s'. destruct (tick_frame s h) as (Eo & Et & Ep).
  subst s'. rewrite <- Eo, <- Et, <- Ep.
  generalize (step s (Tick h)). intros s1. simpl.
  destruct (find_pending r s1) as [h'|]; auto.
  simpl. rewrite Hn. auto.
Qed.

Lemma not_ready_poll_changes_nothing_witness :
  let pending_snap := {| Api.status := Some "building";
                         Api.preview_url := Some "http://h/early";
                         Api.zip_url := None |} in
  let s := step init (Generate (Some "p1")) in
  let s' := step (step s (Tick 0)) (Settle 0 (Api.Resolved pending_snap)) in
  observable s' = (None, None, true, None) /\
  timers s' = [{| handle := 0; pid := "p1"; interval := 5000 |}].
Proof.
  intros pending_snap s s'.
  destruct (not_ready_poll_changes_nothing s 0 0 pending_snap eq_refl)
    as (Ho & Ht & _).
  exact (conj Ho Ht).
Defined.

(** *** No identifier, no polling *)

(** C10.  While the coordinator holds no identifier (null, undefined or the
    empty string) the effect body returns at its guard, no interval is armed,
    and no event makes the component send a [checkStatus]. *)
Theorem no_query_without_identifier (s : state) :
  reachable s ->
  Js.truthy (projectId s) = false ->
  pollEffect s = s /\
  timers s = [] /\
  forall e, queries (log (step s e)) = queries (log s).
Proof.
  intros Hr Hn. pose proof (reachable_invariant s Hr) as (Ha & _ & _).
  assert (timers s = []) as Et.
  { destruct (timers s) as [|t l] eqn:E; auto.
    destruct (Ha t) as (_ & Hp & Hne & _); [rewrite E; simpl; auto|].
    rewrite Hp in Hn. simpl in Hn. rewrite Hne in Hn. discriminate. }
  split; [|split; [exact Et|]].
  - unfold pollEffect. destruct (projectId s) as [p|]; auto.
    simpl in Hn. now destruct (String.eqb p "").
  - intros [id|h|r a].
    + apply queries_generate.
    + simpl. unfold find_timer. now rewrite Et.
    + apply queries_settle.
Qed.

Lemma no_query_without_identifier_witness :
  let s := run [Generate (Some "p1"); Tick 0; Generate None] init in
  timers s = [] /\ queries (log (step s (Tick 0))) = ["p1"].
Proof.
  intros s.
  destruct (no_query_without_identifier s (ex_intro _ _ eq_refl) eq_refl)
    as (_ & Ht & Hq).
  exact (conj Ht (Hq (Tick 0))).
Defined.

(** *** One session at a time *)

(** C5.  In every reachable state at most one interval is armed and it
    belongs to the identifier the coordinator holds.  When a different
    identifier is adopted, the cleanup clears that interval first: after it
    no interval is armed and no query has been sent, and only then does the
    effect body run, arming at most one interval, for the new identifier. *)
Theorem one_session_timer (s : state) :
  reachable s ->
  List.length (timers s) <= 1 /\
  (forall t, In t (timers s) ->
     projectId s = Some (pid t) /\ cleanup s = Some (handle t)) /\
  forall id, Js.same (projectId s) id = false ->
    let s1 := runCleanup (handleGenerate id s) in
    let s2 := step s (Generate id) in
    s2 = pollEffect s1 /\
    timers s1 = [] /\
    (forall t, In t (timers s) -> log s1 = log s ++ [EClearInterval (handle t)]) /\
    (exists l, log s2 = log s1 ++ l /\ queries l = []) /\
    List.length (timers s2) <= 1 /\
    forall t, In t (timers s2) -> Some (pid t) = id /\ projectId s2 = id.
Proof.
  intros Hr. pose proof (reachable_invariant s Hr) as (Ha & Hl & Hf).
  split; [exact Hl|]. split.
  { intros t Ht. destruct (Ha t Ht) as (Hc & Hp & _). auto. }
  intros id Hs s1 s2.
  assert (s2 = pollEffect s1) as E2.
  { subst s1 s2. simpl. unfold commit. simpl. now rewrite Hs. }
  assert (timers s1 = []) as E1 by (apply adopt_disarms; exact Ha).
  destruct (runCleanup_frame (handleGenerate id s)) as (Ep & _).
  fold s1 in Ep. simpl in Ep.
  split; [exact E2|]. split; [exact E1|]. split.
  { intros t Ht. destruct (Ha t Ht) as (Hc & _).
    subst s1. unfold runCleanup. simpl. rewrite Hc. reflexivity. }
  rewrite E2. unfold pollEffect. rewrite Ep.
  destruct id as [p|].
  - destruct (String.eqb p "") eqn:Hp.
    + split; [exists []; split; [now rewrite app_nil_r|reflexivity]|].
      rewrite E1. split; [simpl; lia|intros t []].
    + split; [eexists; split; [reflexivity|reflexivity]|].
      simpl. rewrite E1. simpl. split; [lia|].
      intros t [<-|[]]. simpl. auto.
  - split; [exists []; split; [now rewrite app_nil_r|reflexivity]|].
    rewrite E1. split; [simpl; lia|intros t []].
Qed.

Lemma one_session_timer_witness :
  let s := run [Generate (Some "A"); Tick 0] init in
  let s2 := step s (Generate (Some "B")) in
  List.length (timers s) <= 1 /\
  timers (runCleanup (handleGenerate (Some "B") s)) = [] /\
  List.length (timers s2) <= 1.
Proof.
  intros s s2.
  destruct (one_session_timer s (ex_intro _ _ eq_refl)) as (Hl & _ & Hg).
  destruct (Hg (Some "B") eq_refl) as (_ & H1 & _ & _ & H2 & _).
  exact (conj Hl (conj H1 H2)).
Defined.

(** *** Adopting a new identifier *)

(** C6, as the code has it.  [handleGenerate] raises the loading flag and
    clears the error slot; it leaves the stored preview and download
    references as they are.  While the flag is up the preview renders the
    loading placeholder instead of the frame and the download button cannot be
    activated. *)
Theorem generate_masks_previous_session (s : state) (id : option string) :
  let s' := step s (Generate id) in
  previewUrl s' = previewUrl s /\
  zipUrl s' = zipUrl s /\
  loadingPreview s' = true /\
  error s' = None /\
  renderPreview s' = View.PreviewLoading /\
  View.enabled (renderDownload s') = false /\
  View.activate (renderDownload s') = None.
Proof.
  intros s'.
  assert (observable s' = (previewUrl s, zipUrl s, true, None)) as E.
  { subst s'. simpl. unfold commit.
    destruct (Js.same _ _); [reflexivity|].
    unfold pollEffect.
    destruct (runCleanup_frame (handleGenerate id s)) as (Ep & _ & _ & _ & Eo).
    destruct (projectId (runCleanup (handleGenerate id s))) as [p|]; auto.
    destruct (String.eqb p ""); auto. }
  unfold observable in E. injection E as E1 E2 E3 E4.
  unfold renderPreview, renderDownload. rewrite E1, E2, E3, E4.
  repeat split.
  - unfold View.DownloadButton. destruct (zipUrl s) as [u|]; auto.
    destruct (String.eqb u ""); auto.
  - unfold View.DownloadButton. destruct (zipUrl s) as [u|]; auto.
    destruct (String.eqb u ""); auto.
Qed.

(** C6 as stated fails: session [p1] became ready, then [p2] is adopted; the
    references of [p1] are still stored and the download button is still
    rendered from the old one. *)
Lemma generate_keeps_previous_references :
  let ready_snap := {| Api.status := Some "ready";
                       Api.preview_url := Some "http://h/p1/preview";
                       Api.zip_url := Some "http://h/p1.zip" |} in
  let s := run [Generate (Some "p1"); Tick 0;
                Settle 0 (Api.Resolved ready_snap)] init in
  let s' := step s (Generate (Some "p2")) in
  projectId s' = Some "p2" /\
  previewUrl s' = Some "http://h/p1/preview" /\
  zipUrl s' = Some "http://h/p1.zip" /\
  renderDownload s'
  = Some {| View.disabled := true; View.onClick := Some "http://h/p1.zip" |}.
Proof. repeat split. Qed.

(** *** The download action *)

(** C4, as the code has it.  Without a download reference the button is not
    rendered at all.  With one it is rendered, is enabled exactly when the
    parent's [disabled] prop (the loading flag) is off, and a click then sets
    the location to exactly that reference.  The variant keyed by project
    identifier is disabled exactly when it has no identifier, and a click
    goes to the download endpoint of that identifier. *)
Theorem download_gated_by_reference_and_loading :
  (forall zipUrl dis,
     View.DownloadButton zipUrl dis
     = (if Js.truthy zipUrl
        then Some {| View.disabled := dis; View.onClick := zipUrl |}
        else None) /\
     View.enabled (View.DownloadButton zipUrl dis)
     = (Js.truthy zipUrl && negb dis)%bool /\
     View.activate (View.DownloadButton zipUrl dis)
     = (if (Js.truthy zipUrl && negb dis)%bool then zipUrl else None)) /\
  (forall s : state,
     View.enabled (renderDownload s)
     = (Js.truthy (zipUrl s) && negb (loadingPreview s))%bool /\
     View.activate (renderDownload s)
     = (if (Js.truthy (zipUrl s) && negb (loadingPreview s))%bool
        then zipUrl s else None)) /\
  (forall env projectId,
     View.disabled (View.DownloadButton_by_id env projectId)
     = negb (Js.truthy projectId) /\
     View.activate (Some (View.DownloadButton_by_id env projectId))
     = (if Js.truthy projectId
        then option_map
               (fun p => (Api.API_URL env ++ "/api/download/" ++ p)%string)
               projectId
        else None)).
Proof.
  assert (forall zipUrl dis,
     View.DownloadButton zipUrl dis
     = (if Js.truthy zipUrl
        then Some {| View.disabled := dis; View.onClick := zipUrl |}
        else None) /\
     View.enabled (View.DownloadButton zipUrl dis)
     = (Js.truthy zipUrl && negb dis)%bool /\
     View.activate (View.DownloadButton zipUrl dis)
     = (if (Js.truthy zipUrl && negb dis)%bool then zipUrl else None)) as H.
  { intros [u|] dis; simpl; auto.
    destruct (String.eqb u ""); simpl; auto.
    destruct dis; simpl; auto. }
  split; [exact H|]. split.
  - intros s. destruct (H (zipUrl s) (loadingPreview s)) as (_ & H1 & H2).
    split; assumption.
  - intros env [p|]; simpl; auto.
    destruct (String.eqb p ""); simpl; auto.
Qed.

(** C4 as stated fails: session [p1] became ready, so a download reference
    from a ready snapshot is stored, and [p2] is adopted; the button is
    rendered with that reference and is disabled. *)
Lemma download_disabled_despite_reference :
  let ready_snap := {| Api.status := Some "ready";
                       Api.preview_url := Some "http://h/p1/preview";
                       Api.zip_url := Some "http://h/p1.zip" |} in
  let s := run [Generate (Some "p1"); Tick 0;
                Settle 0 (Api.Resolved ready_snap);
                Generate (Some "p2")] init in
  zipUrl s = Some "http://h/p1.zip" /\
  View.DownloadButton (Some "http://h/p1.zip") true
  = Some {| View.disabled := true; View.onClick := Some "http://h/p1.zip" |} /\
  View.enabled (renderDownload s) = false /\
  View.activate (renderDownload s) = None.
Proof. repeat split. Qed.

End AppFacts.

(** ** The preview lifecycle *)

Module PreviewFacts.
Import Preview.

Lemma find_parked (r : nat) (w : waiting) (l tl : list (nat * waiting)) :
  (forall q, In q l -> fst q < r) ->
  find (fun q => Nat.eqb (fst q) r) (l ++ (r, w) :: tl) = Some (r, w).
Proof.
  induction l as [|q l IH]; simpl; intros H.
  - now rewrite Nat.eqb_refl.
  - assert (fst q < r) as Hq by (apply H; auto).
    destruct (Nat.eqb_spec (fst q) r); [lia|].
    apply IH. intros; apply H; auto.
Qed.

Lemma fresh_send (c : call) (w : waiting) (s : state) :
  requests_fresh s -> requests_fresh (send c w s).
Proof.
  intros Hf q Hq. simpl in *.
  apply in_app_or in Hq as [Hq|[<-|[]]]; simpl; auto.
  specialize (Hf q Hq). lia.
Qed.

Lemma fresh_forget (r : nat) (s : state) :
  requests_fresh s -> requests_fresh (forget r s).
Proof.
  intros Hf q Hq. simpl in *. apply filter_In in Hq as [Hq _]. now apply Hf.
Qed.

Lemma fresh_runCleanup (s : state) :
  requests_fresh s -> requests_fresh (runCleanup s).
Proof.
  intros Hf. unfold runCleanup. destruct (cleanup s); auto using fresh_send.
Qed.

Lemma preview_invariant_init : invariant init.
Proof. split; [intros q []|reflexivity]. Qed.

Lemma preview_invariant_step (s : state) (e : event) :
  invariant s -> invariant (step s e).
Proof.
  intros (Hf & Hc). destruct e as [id|r x]; simpl.
  - destruct (Js.same (projectId s) id); [split; assumption|].
    pose proof (fresh_runCleanup s Hf) as Hf'.
    unfold effect. simpl.
    destruct id as [p|]; [destruct (String.eqb p "") eqn:Ep|];
      (split; [|simpl; rewrite ?Ep; reflexivity]); auto.
    apply (fresh_send _ _ (setProp (Some p) (runCleanup s))). exact Hf'.
  - pose proof (fresh_forget r s Hf) as Hf'.
    destruct (find_pending r s) as [[p|p|p]|]; [| | |split; assumption].
    + unfold fetchPreview, cleanupPreviousPreview_done.
      destruct (Api.stopPreview (as_stop x)); (split; [|exact Hc]);
        apply fresh_send; exact Hf'.
    + unfold cleanupPreviousPreview_done.
      destruct (Api.stopPreview (as_stop x)); (split; [|exact Hc]); exact Hf'.
    + unfold fetchPreview_done.
      destruct (Api.checkStatus (as_check x)); (split; [|exact Hc]); exact Hf'.
Qed.

Lemma preview_reachable_invariant (s : state) : reachable s -> invariant s.
Proof.
  intros [evs ->]. generalize preview_invariant_init. generalize init.
  induction evs as [|e evs IH]; simpl; intros s H; auto.
  apply IH, preview_invariant_step, H.
Qed.

(** Requests are only ever added to the record of calls. *)
Lemma step_calls (s : state) (e : event) :
  exists l, calls (step s e) = calls s ++ l.
Proof.
  destruct e as [id|r x]; simpl.
  - destruct (Js.same (projectId s) id); [exists []; now rewrite app_nil_r|].
    unfold effect, runCleanup. simpl.
    destruct (cleanup s) as [a|]; destruct id as [p|]; simpl;
      try destruct (String.eqb p ""); simpl; rewrite <- ?app_assoc;
      eexists; try reflexivity; symmetry; apply app_nil_r.
  - destruct (find_pending r s) as [[p|p|p]|]; simpl.
    + destruct (Api.stopPreview (as_stop x)); simpl; eexists; reflexivity.
    + destruct (Api.stopPreview (as_stop x)); simpl; exists [];
        now rewrite app_nil_r.
    + destruct (Api.checkStatus (as_check x)); simpl; exists [];
        now rewrite app_nil_r.
    + exists []; now rewrite app_nil_r.
Qed.

Lemma run_calls (evs : list event) (s : state) :
  exists l, calls (run evs s) = calls s ++ l.
Proof.
  revert s. induction evs as [|e evs IH]; simpl; intros s.
  - exists []. now rewrite app_nil_r.
  - destruct (IH (step s e)) as [l2 E2]. destruct (step_calls s e) as [l1 E1].
    exists (l1 ++ l2). rewrite E2, E1. now rewrite app_assoc.
Qed.

(** The continuation parked by the effect runs when its stop request comes
    back, whichever way it settles. *)
Lemma stop_then_fetch (s : state) (r : nat) (p : string) (x : settled)
      (tl : list (nat * waiting)) (l : list (nat * waiting)) :
  pending s = l ++ (r, StopThenFetch p) :: tl ->
  (forall q, In q l -> fst q < r) ->
  let s' := step s (Settle r x) in
  calls s' = calls s ++ [CCheckStatus p] /\ loading s' = true /\ error s' = None.
Proof.
  intros E Hl. simpl. unfold find_pending. rewrite E, (find_parked _ _ _ _ Hl).
  simpl. destruct (Api.stopPreview (as_stop x)); simpl; auto.
Qed.

(** C2.  The component is rendered with a new identifier [B].  If it held an
    identifier [A] before, the cleanup sends [stopPreview(A)] at once, so that
    call comes before every call made from then on, the first
    [checkStatus(B)] included; that query is sent as soon as the stop request
    the effect itself made comes back, whether it succeeded or failed.  If it
    held no identifier (the first one received), no call for any other
    identifier is made and the query for [B] is sent in the same way. *)
Theorem stop_previous_before_first_query (s : state) (B : string) :
  reachable s ->
  String.eqb B "" = false ->
  Js.same (projectId s) (Some B) = false ->
  let s1 := step s (Render (Some B)) in
  (forall A, projectId s = Some A -> String.eqb A "" = false ->
     calls s1 = calls s ++ [CStopPreview A; CStopPreview B] /\
     (forall evs, exists rest,
        calls (run evs s1) = calls s ++ CStopPreview A :: rest) /\
     forall x,
       let s2 := step s1 (Settle (S (next_req s)) x) in
       calls s2 = calls s ++ [CStopPreview A; CStopPreview B; CCheckStatus B] /\
       loading s2 = true /\ error s2 = None) /\
  (Js.truthy (projectId s) = false ->
     calls s1 = calls s ++ [CStopPreview B] /\
     forall x,
       let s2 := step s1 (Settle (next_req s) x) in
       calls s2 = calls s ++ [CStopPreview B; CCheckStatus B] /\
       loading s2 = true /\ error s2 = None).
Proof.
  intros Hr HB Hs s1. pose proof (preview_reachable_invariant s Hr) as (Hf & Hc).
  assert (s1 = effect (setProp (Some B) (runCleanup s))) as E1.
  { subst s1. simpl. now rewrite Hs. }
  split.
  - intros A HA HA'. rewrite HA in Hc. simpl in Hc. rewrite HA' in Hc.
    simpl in Hc.
    assert (calls s1 = calls s ++ [CStopPreview A; CStopPreview B]) as Ec.
    { rewrite E1. unfold effect, runCleanup. rewrite Hc. simpl. rewrite HB.
      simpl. now rewrite <- app_assoc. }
    assert (pending s1 = (pending s ++ [(next_req s, StopOnly A)])
                           ++ (S (next_req s), StopThenFetch B) :: []) as Ep.
    { rewrite E1. unfold effect, runCleanup. rewrite Hc. simpl. rewrite HB.
      reflexivity. }
    split; [exact Ec|]. split.
    + intros evs. destruct (run_calls evs s1) as [l El].
      exists (CStopPreview B :: l). rewrite El, Ec.
      now rewrite <- app_assoc.
    + intros x s2.
      destruct (stop_then_fetch s1 _ B x _ _ Ep) as (H1 & H2 & H3).
      { intros q Hq. apply in_app_or in Hq as [Hq|[<-|[]]]; simpl; auto.
        specialize (Hf q Hq). lia. }
      fold s2 in H1, H2, H3. rewrite H1, Ec, <- app_assoc. auto.
  - intros Hn. rewrite Hn in Hc.
    assert (calls s1 = calls s ++ [CStopPreview B]) as Ec.
    { rewrite E1. unfold effect, runCleanup. rewrite Hc. simpl. now rewrite HB. }
    assert (pending s1 = pending s ++ (next_req s, StopThenFetch B) :: []) as Ep.
    { rewrite E1. unfold effect, runCleanup. rewrite Hc. simpl. now rewrite HB. }
    split; [exact Ec|].
    intros x s2.
    destruct (stop_then_fetch s1 _ B x _ _ Ep Hf) as (H1 & H2 & H3).
    fold s2 in H1, H2, H3. rewrite H1, Ec, <- app_assoc. auto.
Qed.

Lemma stop_previous_before_first_query_witness :
  let s := run [Render (Some "A"); Settle 0 (StopSettled (Api.Resolved tt))] init in
  let s1 := step s (Render (Some "B")) in
  let s2 := step s1 (Settle 3 (StopSettled (Api.Rejected None))) in
  calls s1 = [CStopPreview "A"; CCheckStatus "A";
              CStopPreview "A"; CStopPreview "B"] /\
  calls s2 = [CStopPreview "A"; CCheckStatus "A";
              CStopPreview "A"; CStopPreview "B"; CCheckStatus "B"].
Proof.
  intros s s1 s2.
  destruct (stop_previous_before_first_query s "B"
              (ex_intro _ _ eq_refl) eq_refl eq_refl) as (H & _).
  destruct (H "A" eq_refl eq_refl) as (H1 & _ & H2).
  destruct (H2 (StopSettled (Api.Rejected None))) as (H3 & _).
  exact (conj H1 H3).
Defined.

End PreviewFacts.

(** ** The input form *)

Module InputFormFacts.
Import InputForm.

Lemma trimStart_blank (d : text) :
  forallb is_white_space d = true -> trimStart d = [].
Proof.
  induction d as [|c d IH]; simpl; auto.
  intros H. apply andb_prop in H as [Hc Hd]. rewrite Hc. auto.
Qed.

Lemma trimStart_keeps_last (d : text) (c : code_unit) :
  is_white_space c = false -> trimStart (d ++ [c]) <> [].
Proof.
  intros Hc. induction d as [|c' d IH]; simpl.
  - rewrite Hc. discriminate.
  - destruct (is_white_space c'); [exact IH|discriminate].
Qed.

Lemma trimStart_head (d : text) :
  match trimStart d with
  | c :: _ => is_white_space c = false
  | [] => forallb is_white_space d = true
  end.
Proof.
  induction d as [|c d IH]; simpl; auto.
  destruct (is_white_space c) eqn:Hc; simpl; auto.
Qed.

(** [!description.trim()] holds exactly of the descriptions made of white
    space only. *)
Lemma blank_spec (d : text) :
  blank d = forallb is_white_space d.
Proof.
  unfold blank, trim, trimEnd.
  pose proof (trimStart_head d) as H.
  destruct (trimStart d) as [|c d'] eqn:E.
  - simpl. now rewrite H.
  - assert (forallb is_white_space d = false) as Hd.
    { destruct (forallb is_white_space d) eqn:F; auto.
      rewrite (trimStart_blank d F) in E. discriminate. }
    rewrite Hd. simpl rev.
    pose proof (trimStart_keeps_last (rev d') c H) as Hn.
    destruct (trimStart (rev d' ++ [c])) as [|x l] eqn:E'; [congruence|].
    simpl. destruct (rev l); reflexivity.
Qed.

(** C8.  With a description that is empty or made of white space only, the
    submit handler returns at its guard: no request is sent and the state,
    effect log included, is the one before, whether the handler is called
    directly or through a click. *)
Theorem blank_description_is_noop (s : state) :
  forallb is_white_space (description s) = true ->
  handleGenerate s = s /\ step s Click = s.
Proof.
  intros H. assert (handleGenerate s = s) as E.
  { unfold handleGenerate. now rewrite blank_spec, H. }
  split; [exact E|]. simpl. destruct (loading s); auto.
Qed.

Lemma blank_description_is_noop_witness :
  let s := step init (Change [32; 9; 10; 160; 8202]%N) in
  handleGenerate s = s /\ step s Click = s.
Proof.
  intros s. exact (blank_description_is_noop s eq_refl).
Defined.

(** C7.  The button is clicked with a description that is not blank while
    nothing is in flight: the flag goes up, the error is cleared and one
    [generateProject(description)] is sent; a further click while it is in
    flight does nothing.  When the request resolves, the identifier of the
    response is handed to [onGenerate] and the flag goes down; when it is
    rejected, the message is stored, nothing is handed up and the flag goes
    down. *)
Theorem submit_once_then_report (s : state) :
  blank (description s) = false ->
  loading s = false ->
  let s1 := step s Click in
  loading s1 = true /\
  error s1 = None /\
  log s1 = log s ++ [EGenerateProject (description s)] /\
  submissions (log s1) = submissions (log s) ++ [description s] /\
  step s1 Click = s1 /\
  (forall data,
     let s2 := step s1 (Settle (next_req s) (Api.Resolved data)) in
     log s2 = log s1 ++ [EOnGenerate (Api.project_id data)] /\
     loading s2 = false /\ error s2 = None) /\
  (forall detail,
     let s2 := step s1 (Settle (next_req s) (Api.Rejected detail)) in
     log s2 = log s1 /\
     loading s2 = false /\
     error s2 = Some (Js.or_else detail "Generation failed")).
Proof.
  intros Hb Hl s1.
  assert (s1 = park (emit (EGenerateProject (description s))
                       (setError None (setLoading true s)))) as E.
  { subst s1. simpl. rewrite Hl. unfold handleGenerate. now rewrite Hb. }
  assert (existsb (Nat.eqb (next_req s)) (pending s1) = true) as Hp.
  { rewrite E. simpl. rewrite existsb_app. simpl.
    rewrite Nat.eqb_refl. apply orb_true_iff. right. reflexivity. }
  split; [rewrite E; reflexivity|].
  split; [rewrite E; reflexivity|].
  split; [rewrite E; reflexivity|].
  split.
  { rewrite E. simpl. unfold submissions. rewrite flat_map_app. reflexivity. }
  split; [rewrite E; reflexivity|].
  split; intros x s2; subst s2; simpl; rewrite Hp; rewrite E; simpl; auto.
Qed.

Lemma submit_once_then_report_witness :
  let s := step init (Change [32; 97; 32; 98; 108; 111; 103; 32]%N) in
  let s1 := step s Click in
  let ok := step s1 (Settle 0 (Api.Resolved {| Api.project_id := Some "p1" |})) in
  let ko := step s1 (Settle 0 (Api.Rejected (Some "quota exceeded"))) in
  submissions (log s1) = [[32; 97; 32; 98; 108; 111; 103; 32]%N] /\
  log ok = [EGenerateProject [32; 97; 32; 98; 108; 111; 103; 32]%N;
            EOnGenerate (Some "p1")] /\
  error ko = Some "quota exceeded".
Proof.
  intros s s1 ok ko.
  destruct (submit_once_then_report s eq_refl eq_refl)
    as (_ & _ & _ & Hs & _ & Hok & Hko).
  destruct (Hok {| Api.project_id := Some "p1" |}) as (H1 & _).
  destruct (Hko (Some "quota exceeded")) as (_ & _ & H2).
  exact (conj Hs (conj H1 H2)).
Defined.

End InputFormFacts.

(** * Further properties of the code *)

(** ** Polling for any number of rounds *)

Module PollingFacts.
Import App AppFacts.

Lemma polled_n_frame (n : nat) (p : string) (s : state) :
  timers (polled_n n p s) = timers s /\
  pending (polled_n n p s) = pending s /\
  cleanup (polled_n n p s) = cleanup s /\
  projectId (polled_n n p s) = projectId s /\
  observable (polled_n n p s) = observable s /\
  next_req (polled_n n p s) = n + next_req s /\
  log (polled_n n p s) = log s ++ repeat (ECheckStatus p) n.
Proof.
  revert s. induction n as [|n IH]; intros s; simpl.
  - rewrite app_nil_r. repeat split.
  - destruct (IH (polled p s)) as (E1 & E2 & E3 & E4 & E5 & E6 & E7).
    rewrite E1, E2, E3, E4, E5, E6, E7. simpl.
    rewrite <- app_assoc. simpl. repeat split; try reflexivity. lia.
Qed.

Lemma queries_repeat (p : string) (n : nat) :
  queries (repeat (ECheckStatus p) n) = repeat p n.
Proof. induction n as [|n IH]; simpl; auto. now rewrite IH. Qed.

Lemma find_timer_polled (h : nat) (p : string) (s : state) :
  find_timer h (polled p s) = find_timer h s.
Proof. reflexivity. Qed.

(** Rounds whose answers are all not ready only move the bookkeeping. *)
Lemma rounds_not_ready (ns : list Api.snapshot) (t : timer) (s : state) :
  requests_fresh s -> find_timer (handle t) s = Some t ->
  forallb (fun n => negb (is_ready n)) ns = true ->
  run (rounds (handle t) (next_req s) (map Api.Resolved ns)) s
  = polled_n (List.length ns) (pid t) s.
Proof.
  revert s. induction ns as [|n ns IH]; intros s Hf Ht Hn; simpl; auto.
  simpl in Hn. apply andb_prop in Hn as [Hn1 Hn2].
  apply negb_true_iff in Hn1.
  change (fold_left step (rounds (handle t) (S (next_req s)) (map Api.Resolved ns))
            (step (step s (Tick (handle t)))
               (Settle (next_req s) (Api.Resolved n)))
          = polled_n (List.length ns) (pid t) (polled (pid t) s)).
  rewrite (poll_not_ready s t n Hf Ht Hn1).
  apply (IH (polled (pid t) s)); auto using polled_fresh.
Qed.

Lemma run_app (l1 l2 : list event) (s : state) :
  run (l1 ++ l2) s = run l2 (run l1 s).
Proof. apply fold_left_app. Qed.

Lemma rounds_app (h r : nat) (l1 l2 : list (Api.axios Api.snapshot)) :
  rounds h r (l1 ++ l2) = rounds h r l1 ++ rounds h (List.length l1 + r) l2.
Proof.
  revert r. induction l1 as [|a l1 IH]; intros r; simpl; auto.
  rewrite IH. now rewrite Nat.add_succ_r.
Qed.

(** X1.  There is no give-up: however many answers come back not ready, the
    interval of the adopted identifier stays armed, the loading flag stays
    up, nothing the render reads changes, and exactly one query per answer
    has been sent. *)
Theorem polling_never_gives_up
  (s : state) (p : string) (ns : list Api.snapshot) :
  reachable s ->
  String.eqb p "" = false ->
  Js.same (projectId s) (Some p) = false ->
  forallb (fun n => negb (is_ready n)) ns = true ->
  let s0 := step s (Generate (Some p)) in
  let sn := run (rounds (next_handle s) (next_req s) (map Api.Resolved ns)) s0 in
  timers sn = [{| handle := next_handle s; pid := p; interval := 5000 |}] /\
  loadingPreview sn = true /\
  observable sn = observable s0 /\
  queries (log sn) = queries (log s0) ++ repeat p (List.length ns).
Proof.
  intros Hr Hp Hs Hn s0 sn.
  pose proof (reachable_invariant s Hr) as (Ha & _ & _).
  assert (invariant s0) as (_ & _ & Hf0)
      by (apply invariant_step, reachable_invariant, Hr).
  destruct (generate_fresh s p Ha Hs Hp)
    as (Et & _ & _ & _ & En & _ & Eo & _).
  fold s0 in Et, En, Eo.
  set (t := {| handle := next_handle s; pid := p; interval := POLL_INTERVAL |}) in *.
  assert (find_timer (handle t) s0 = Some t) as Hfind.
  { unfold find_timer. rewrite Et. simpl. now rewrite Nat.eqb_refl. }
  assert (sn = polled_n (List.length ns) p s0) as E.
  { subst sn. rewrite <- En.
    exact (rounds_not_ready ns t s0 Hf0 Hfind Hn). }
  destruct (polled_n_frame (List.length ns) p s0)
    as (E1 & _ & _ & _ & E5 & _ & E7).
  rewrite E, E1, E5, E7, queries_app, queries_repeat.
  split; [exact Et|]. split; [|split; reflexivity].
  unfold observable in E5, Eo. rewrite Eo in E5. now injection E5.
Qed.

Lemma polling_never_gives_up_witness :
  let building := {| Api.status := Some "building"; Api.preview_url := None;
                     Api.zip_url := None |} in
  let missing := {| Api.status := None; Api.preview_url := Some "http://h/x";
                    Api.zip_url := None |} in
  let sn := run (Generate (Some "p1")
                   :: rounds 0 0 (map Api.Resolved
                                    [building; missing; building; building;
                                     building]))
                init in
  timers sn = [{| handle := 0; pid := "p1"; interval := 5000 |}] /\
  loadingPreview sn = true /\
  queries (log sn) = ["p1"; "p1"; "p1"; "p1"; "p1"].
Proof.
  intros building missing sn.
  destruct (polling_never_gives_up init "p1"
              [building; missing; building; building; building]
              (ex_intro _ [] eq_refl) eq_refl eq_refl eq_refl)
    as (Ht & Hl & _ & Hq).
  vm_compute in Ht, Hl, Hq. vm_compute.
  exact (conj Ht (conj Hl Hq)).
Defined.

Lemma rounds_until_ready
  (ns : list Api.snapshot) (rd : Api.snapshot) (t : timer) (s0 : state) :
  requests_fresh s0 -> find_timer (handle t) s0 = Some t ->
  forallb (fun n => negb (is_ready n)) ns = true ->
  is_ready rd = true ->
  run (rounds (handle t) (next_req s0) (map Api.Resolved (ns ++ [rd]))) s0
  = clearInterval (handle t)
      (setLoadingPreview false
         (setZipUrl (Api.zip_url rd)
            (setPreviewUrl (Api.preview_url rd)
               (polled (pid t) (polled_n (List.length ns) (pid t) s0))))).
Proof.
  intros Hf0 Hfind Hn Hrd.
  set (n := List.length ns).
  destruct (polled_n_frame n (pid t) s0) as (E1 & E2 & _ & _ & _ & E6 & _).
  assert (requests_fresh (polled_n n (pid t) s0)) as Hfn.
  { intros q Hq. rewrite E2 in Hq. rewrite E6. specialize (Hf0 q Hq). lia. }
  rewrite map_app, rounds_app, run_app, length_map.
  rewrite (rounds_not_ready ns t s0 Hf0 Hfind Hn). fold n.
  rewrite <- E6. simpl map. cbn [rounds run fold_left].
  apply (poll_ready (polled_n n (pid t) s0) t rd Hfn); auto.
  unfold find_timer. rewrite E1. exact Hfind.
Qed.

(** X2.  For any number of not-ready answers followed by a ready one, one
    query per answer is sent and polling ends; the page then shows what the
    ready snapshot carries: the frame if it has a preview URL and nothing
    otherwise, an enabled download that goes to its zip URL if it has one and
    no button otherwise. *)
Theorem poll_until_ready
  (s : state) (p : string) (ns : list Api.snapshot) (rd : Api.snapshot) :
  reachable s ->
  String.eqb p "" = false ->
  Js.same (projectId s) (Some p) = false ->
  forallb (fun n => negb (is_ready n)) ns = true ->
  is_ready rd = true ->
  let s0 := step s (Generate (Some p)) in
  let s' := run (rounds (next_handle s) (next_req s)
                   (map Api.Resolved (ns ++ [rd]))) s0 in
  queries (log s') = queries (log s0) ++ repeat p (S (List.length ns)) /\
  timers s' = [] /\
  renderPreview s' = View.Preview (Api.preview_url rd) false /\
  View.activate (renderDownload s')
  = (if Js.truthy (Api.zip_url rd) then Api.zip_url rd else None).
Proof.
  intros Hr Hp Hs Hn Hrd s0 s'.
  pose proof (reachable_invariant s Hr) as (Ha & _ & _).
  assert (invariant s0) as (_ & _ & Hf0)
      by (apply invariant_step, reachable_invariant, Hr).
  destruct (generate_fresh s p Ha Hs Hp)
    as (Et & _ & _ & _ & En & _ & _ & _).
  fold s0 in Et, En.
  set (t := {| handle := next_handle s; pid := p; interval := POLL_INTERVAL |}) in *.
  assert (find_timer (handle t) s0 = Some t) as Hfind.
  { unfold find_timer. rewrite Et. simpl. now rewrite Nat.eqb_refl. }
  set (n := List.length ns).
  destruct (polled_n_frame n p s0) as (E1 & _ & _ & _ & _ & _ & E7).
  assert (s' = clearInterval (handle t)
                 (setLoadingPreview false
                    (setZipUrl (Api.zip_url rd)
                       (setPreviewUrl (Api.preview_url rd)
                          (polled p (polled_n n p s0)))))) as E.
  { subst s'. rewrite <- En.
    exact (rounds_until_ready ns rd t s0 Hf0 Hfind Hn Hrd). }
  rewrite E. unfold renderPreview, renderDownload. simpl.
  rewrite E1, Et, E7. simpl. rewrite Nat.eqb_refl. simpl.
  split.
  { rewrite !queries_app, queries_repeat. cbn [queries flat_map app].
    rewrite !app_nil_r, <- app_assoc, <- repeat_cons. reflexivity. }
  split; [reflexivity|]. split; [reflexivity|].
  destruct (Api.zip_url rd) as [z|]; simpl; auto.
  destruct (String.eqb z ""); reflexivity.
Qed.

Lemma poll_until_ready_witness :
  let building := {| Api.status := Some "building"; Api.preview_url := None;
                     Api.zip_url := None |} in
  let bare := {| Api.status := Some "ready"; Api.preview_url := None;
                 Api.zip_url := None |} in
  let s' := run (Generate (Some "p1")
                   :: rounds 0 0 (map Api.Resolved [building; building; bare]))
                init in
  queries (log s') = ["p1"; "p1"; "p1"] /\ timers s' = [] /\
  renderPreview s' = View.PreviewNothing /\
  View.activate (renderDownload s') = None.
Proof.
  intros building bare s'.
  destruct (poll_until_ready init "p1" [building; building] bare
              (ex_intro _ [] eq_refl) eq_refl eq_refl eq_refl eq_refl)
    as (Hq & Ht & Hp & Hd).
  vm_compute in Hq, Ht, Hp, Hd. vm_compute.
  exact (conj Hq (conj Ht (conj Hp Hd))).
Defined.

(** X3.  A query is only ever sent for the identifier the coordinator holds:
    whatever the event, every [checkStatus] it sends names the identifier
    held before and after it. *)
Theorem queries_only_for_held_identifier (s : state) (e : event) :
  reachable s ->
  exists l, log (step s e) = log s ++ l /\
    forall p, In p (queries l) ->
      projectId s = Some p /\ projectId (step s e) = Some p.
Proof.
  intros Hr. pose proof (reachable_invariant s Hr) as (Ha & _ & _).
  destruct e as [id|h|r a].
  - simpl. unfold commit.
    destruct (Js.same (projectId s) (projectId (handleGenerate id s))).
    + exists []. simpl. rewrite app_nil_r. split; [reflexivity|intros p []].
    + unfold pollEffect, runCleanup. simpl.
      destruct (cleanup s) as [c|]; simpl; destruct id as [p'|]; simpl;
        try destruct (String.eqb p' ""); simpl; rewrite <- ?app_assoc;
        eexists; (split; [try reflexivity; symmetry; apply app_nil_r|]);
        simpl; intros p F; contradiction.
  - simpl. destruct (find_timer h s) as [t|] eqn:Ef.
    + exists [ECheckStatus (pid t)]. split; [reflexivity|].
      simpl. intros p [<-|[]].
      apply find_some in Ef as [Hin _].
      destruct (Ha t Hin) as (_ & Hp & _). auto.
    + exists []. rewrite app_nil_r. split; [reflexivity|intros p []].
  - simpl. destruct (find_pending r s) as [h|].
    + unfold resume. destruct (Api.checkStatus a) as [snap|msg];
        [destruct (is_ready snap)|]; simpl;
        eexists; (split; [try reflexivity; symmetry; apply app_nil_r|]);
        simpl; intros p F; contradiction.
    + exists []. rewrite app_nil_r. split; [reflexivity|intros p []].
Qed.

Lemma queries_only_for_held_identifier_witness :
  let s := run [Generate (Some "p1"); Tick 0; Generate (Some "p2")] init in
  exists l, log (step s (Tick 1)) = log s ++ l /\
    forall p, In p (queries l) ->
      projectId s = Some p /\ projectId (step s (Tick 1)) = Some p.
Proof.
  intros s.
  exact (queries_only_for_held_identifier s (Tick 1) (ex_intro _ _ eq_refl)).
Defined.

End PollingFacts.

(** ** Answers that arrive late, identifiers that do not restart polling *)

Module SessionFacts.
Import App AppFacts.

Lemma filter_no_handle (h : nat) (l : list timer) :
  find (fun t => Nat.eqb (handle t) h) l = None ->
  filter (fun t => negb (Nat.eqb (handle t) h)) l = l.
Proof.
  induction l as [|t l IH]; simpl; auto.
  destruct (Nat.eqb (handle t) h); [discriminate|].
  simpl. intros H. now rewrite IH.
Qed.

(** X4.  The answer to a request whose interval is no longer armed (its
    session was superseded, or its polling already ended) is still applied:
    a ready answer overwrites the stored references and drops the loading
    flag, a rejection stores its message and drops the loading flag; the
    identifier and the armed intervals are left as they are. *)
Theorem late_answer_is_still_applied (s : state) (r h : nat) :
  find_pending r s = Some h ->
  find_timer h s = None ->
  (forall snap, is_ready snap = true ->
     let s' := step s (Settle r (Api.Resolved snap)) in
     previewUrl s' = Api.preview_url snap /\
     zipUrl s' = Api.zip_url snap /\
     loadingPreview s' = false /\
     projectId s' = projectId s /\ timers s' = timers s) /\
  (forall detail,
     let s' := step s (Settle r (Api.Rejected detail)) in
     error s' = Some (Js.or_else detail "Status check failed") /\
     loadingPreview s' = false /\
     projectId s' = projectId s /\ timers s' = timers s).
Proof.
  intros Hq Ht. unfold find_timer in Ht. split.
  - intros snap Hr. simpl. rewrite Hq. simpl. rewrite Hr. simpl.
    rewrite (filter_no_handle h _ Ht). repeat split.
  - intros detail. simpl. rewrite Hq. simpl.
    rewrite (filter_no_handle h _ Ht). repeat split.
Qed.

Lemma late_answer_is_still_applied_witness :
  let old := {| Api.status := Some "ready";
                Api.preview_url := Some "http://h/p1/preview";
                Api.zip_url := Some "http://h/p1.zip" |} in
  let s := run [Generate (Some "p1"); Tick 0; Generate (Some "p2")] init in
  let s' := step s (Settle 0 (Api.Resolved old)) in
  projectId s' = Some "p2" /\
  previewUrl s' = Some "http://h/p1/preview" /\
  loadingPreview s' = false /\
  timers s' = [{| handle := 1; pid := "p2"; interval := 5000 |}].
Proof.
  intros old s s'.
  destruct (late_answer_is_still_applied s 0 0 eq_refl eq_refl) as (H & _).
  destruct (H old eq_refl) as (Hp & _ & Hl & Hi & Ht).
  vm_compute in Hp, Hl, Hi, Ht. vm_compute.
  exact (conj Hi (conj Hp (conj Hl Ht))).
Defined.

(** With no interval armed and no request outstanding, ticks and answers
    change nothing. *)
Lemma quiescent (evs : list event) (s : state) :
  timers s = [] -> pending s = [] ->
  forallb (fun e => negb (is_generate e)) evs = true ->
  run evs s = s.
Proof.
  intros Ht Hp. induction evs as [|e evs IH]; simpl; auto.
  intros Hg. apply andb_prop in Hg as [He Hg].
  assert (step s e = s) as ->; [|auto].
  destruct e as [id|h|r a]; try discriminate; simpl.
  - unfold find_timer. now rewrite Ht.
  - unfold find_pending. now rewrite Hp.
Qed.

(** X5.  Handing the coordinator the identifier it already holds raises the
    loading flag but does not run the effect again: no interval is cleared or
    armed.  If polling for it had ended and nothing is outstanding, the page
    then shows the loading placeholder for good: no tick or answer changes the
    state any more. *)
Theorem same_identifier_does_not_restart_polling
  (s : state) (id : option string) :
  Js.same (projectId s) id = true ->
  let s' := step s (Generate id) in
  timers s' = timers s /\
  log s' = log s /\
  loadingPreview s' = true /\
  renderPreview s' = View.PreviewLoading /\
  (timers s = [] -> pending s = [] ->
   forall evs, forallb (fun e => negb (is_generate e)) evs = true ->
     run evs s' = s').
Proof.
  intros Hs s'.
  assert (s' = handleGenerate id s) as E.
  { subst s'. simpl. unfold commit. simpl. now rewrite Hs. }
  rewrite E. repeat split.
  intros Ht Hp evs Hg. now apply quiescent.
Qed.

Lemma same_identifier_does_not_restart_polling_witness :
  let s := run [Generate (Some "p1"); Tick 0;
                Settle 0 (Api.Rejected None)] init in
  let s' := step s (Generate (Some "p1")) in
  timers s' = [] /\ loadingPreview s' = true /\
  run [Tick 0; Tick 1; Settle 0 (Api.Rejected None); Tick 0] s' = s'.
Proof.
  intros s s'.
  destruct (same_identifier_does_not_restart_polling s (Some "p1") eq_refl)
    as (Ht & _ & Hl & _ & Hq).
  pose proof (Hq eq_refl eq_refl
                [Tick 0; Tick 1; Settle 0 (Api.Rejected None); Tick 0] eq_refl)
    as Hr.
  vm_compute in Ht, Hl, Hr. vm_compute.
  exact (conj Ht (conj Hl Hr)).
Defined.

Lemma falsy_disarmed (s : state) :
  armed_for_current s -> Js.truthy (projectId s) = false -> timers s = [].
Proof.
  intros Ha Hn. destruct (timers s) as [|t l] eqn:E; auto.
  destruct (Ha t) as (_ & Hp & Hne & _); [rewrite E; simpl; auto|].
  rewrite Hp in Hn. simpl in Hn. rewrite Hne in Hn. discriminate.
Qed.

(** X6.  Handing the coordinator a missing or empty identifier (a response
    without [project_id]) ends polling: whatever interval was armed is
    cleared, none is armed for the new value, the loading placeholder is
    shown, and no tick or answer sends a query from then on. *)
Theorem missing_identifier_ends_polling (s : state) (id : option string) :
  reachable s ->
  Js.truthy id = false ->
  let s' := step s (Generate id) in
  timers s' = [] /\
  loadingPreview s' = true /\
  renderPreview s' = View.PreviewLoading /\
  forall evs, forallb (fun e => negb (is_generate e)) evs = true ->
    queries (log (run evs s')) = queries (log s').
Proof.
  intros Hr Hn s'. pose proof (reachable_invariant s Hr) as (Ha & _ & _).
  assert (timers s' = [] /\ loadingPreview s' = true) as [Et El].
  { subst s'. simpl. unfold commit. simpl.
    destruct (Js.same (projectId s) id) eqn:Hs.
    - apply same_eq in Hs. subst id. simpl.
      split; [exact (falsy_disarmed s Ha Hn)|reflexivity].
    - pose proof (adopt_disarms s id Ha) as Ht.
      destruct (runCleanup_frame (handleGenerate id s))
        as (Ep & _ & _ & _ & Eo).
      unfold pollEffect. rewrite Ep. simpl.
      assert (loadingPreview (runCleanup (handleGenerate id s)) = true) as El.
      { unfold observable in Eo. simpl in Eo. now injection Eo. }
      destruct id as [p|]; [|auto].
      simpl in Hn. destruct (String.eqb p ""); [auto|discriminate]. }
  split; [exact Et|]. split; [exact El|]. split.
  - unfold renderPreview, View.Preview. now rewrite El.
  - intros evs Hg. now apply idle_quiet.
Qed.

Lemma missing_identifier_ends_polling_witness :
  let s := run [Generate (Some "p1"); Tick 0] init in
  let s' := step s (Generate None) in
  timers s' = [] /\ loadingPreview s' = true /\
  queries (log (run [Tick 0; Tick 1] s')) = ["p1"].
Proof.
  intros s s'.
  destruct (missing_identifier_ends_polling s None
              (ex_intro _ _ eq_refl) eq_refl) as (Ht & Hl & _ & Hq).
  pose proof (Hq [Tick 0; Tick 1] eq_refl) as Hr.
  vm_compute in Ht, Hl, Hr. vm_compute.
  exact (conj Ht (conj Hl Hr)).
Defined.

End SessionFacts.

(** ** The input form over any sequence of events *)

Module InputFormInvariants.
Import InputForm.

Lemma in_step_step (s : state) (e : event) : in_step s -> in_step (step s e).
Proof.
  intros H. destruct e as [d| |r a]; simpl.
  - exact H.
  - destruct (loading s) eqn:El; [exact H|].
    destruct H as [[H _]|[_ Hp]]; [congruence|].
    unfold handleGenerate. destruct (blank (description s)).
    + right. auto.
    + left. simpl. rewrite Hp. split; [reflexivity|]. now exists (next_req s).
  - destruct H as [[Hl [r0 Hp]]|[Hl Hp]].
    + rewrite Hp. simpl. rewrite orb_false_r.
      destruct (Nat.eqb r r0) eqn:E.
      * right. unfold handleGenerate_done.
        destruct (Api.generateProject a); simpl; rewrite Hp; simpl;
          rewrite Nat.eqb_sym, E; simpl; auto.
      * left. split; [exact Hl|]. now exists r0.
    + rewrite Hp. simpl. right. auto.
Qed.

Lemma in_step_reachable (s : state) : reachable s -> in_step s.
Proof.
  intros [evs ->]. assert (in_step init) as H by (right; auto).
  revert H. generalize init.
  induction evs as [|e evs IH]; simpl; intros s H; auto.
  apply IH, in_step_step, H.
Qed.

(** X7.  Over any sequence of typing, clicks and answers, at most one
    [generateProject] request is outstanding, and the submit button is
    disabled exactly while one is. *)
Theorem one_submission_in_flight (s : state) :
  reachable s ->
  List.length (pending s) = (if button_disabled (render s) then 1 else 0).
Proof.
  intros Hr. simpl.
  destruct (in_step_reachable s Hr) as [[-> [r ->]]|[-> ->]]; reflexivity.
Qed.

Lemma one_submission_in_flight_witness :
  let s := run [Change [97]%N; Click; Click; Change [98]%N; Click] init in
  List.length (pending s) = 1 /\ submissions (log s) = [[97]%N].
Proof.
  intros s.
  pose proof (one_submission_in_flight s (ex_intro _ _ eq_refl)) as H.
  vm_compute in H. vm_compute. exact (conj H eq_refl).
Defined.

Lemma reports_app (l1 l2 : list effect) :
  reports (l1 ++ l2) = reports l1 ++ reports l2.
Proof. unfold reports. apply flat_map_app. Qed.

Lemma submissions_app (l1 l2 : list effect) :
  submissions (l1 ++ l2) = submissions l1 ++ submissions l2.
Proof. unfold submissions. apply flat_map_app. Qed.

Lemma forget_shrinks (r : nat) (l : list nat) :
  existsb (Nat.eqb r) l = true ->
  S (List.length (filter (fun q => negb (Nat.eqb q r)) l)) <= List.length l.
Proof.
  induction l as [|q l IH]; simpl; [discriminate|].
  rewrite (Nat.eqb_sym r q). destruct (Nat.eqb q r); simpl.
  - intros _. pose proof (filter_length_le (fun q => negb (Nat.eqb q r)) l).
    lia.
  - intros H. specialize (IH H). lia.
Qed.

(** X8.  The parent is handed an identifier only for a request that was
    really sent, and at most once per request: the identifiers reported so
    far, plus the requests still outstanding, never outnumber the requests
    sent. *)
Theorem reports_never_outnumber_requests (s : state) :
  reachable s ->
  List.length (reports (log s)) + List.length (pending s)
  <= List.length (submissions (log s)).
Proof.
  intros [evs ->].
  assert (List.length (reports (log init)) + List.length (pending init)
          <= List.length (submissions (log init))) as H by (simpl; lia).
  revert H. generalize init.
  induction evs as [|e evs IH]; simpl; intros s H; auto.
  apply IH. destruct e as [d| |r a]; simpl.
  - exact H.
  - destruct (loading s); [exact H|]. unfold handleGenerate.
    destruct (blank (description s)); [exact H|]. simpl.
    rewrite reports_app, submissions_app, !length_app. simpl. lia.
  - destruct (existsb (Nat.eqb r) (pending s)) eqn:E; [|exact H].
    pose proof (forget_shrinks r (pending s) E) as Hs.
    unfold handleGenerate_done. destruct (Api.generateProject a); simpl.
    + rewrite reports_app, submissions_app, !length_app. simpl. lia.
    + lia.
Qed.

Lemma reports_never_outnumber_requests_witness :
  let s := run [Change [97]%N; Click;
                Settle 0 (Api.Resolved {| Api.project_id := Some "p1" |});
                Settle 0 (Api.Resolved {| Api.project_id := Some "p1" |});
                Click] init in
  reports (log s) = [Some "p1"] /\
  List.length (reports (log s)) + List.length (pending s)
  <= List.length (submissions (log s)).
Proof.
  intros s. split; [reflexivity|].
  exact (reports_never_outnumber_requests s (ex_intro _ _ eq_refl)).
Defined.

(** X9.  A rejected submission is shown and can be retried by hand: the
    error line carries the message (never empty), the button is enabled
    again under its idle label, the text typed is still in the textarea, and
    a further click sends the same description once more.  Nothing is
    retried without that click. *)
Theorem rejected_submission_can_be_retried
  (s : state) (detail : option string) :
  blank (description s) = false ->
  loading s = false ->
  let s2 := run [Click; Settle (next_req s) (Api.Rejected detail)] s in
  render s2
  = {| textarea := description s;
       button_label := "Generate";
       button_disabled := false;
       error_line := Some (Js.or_else detail "Generation failed") |} /\
  submissions (log s2) = submissions (log s) ++ [description s] /\
  reports (log s2) = reports (log s) /\
  submissions (log (step s2 Click))
  = submissions (log s) ++ [description s; description s].
Proof.
  intros Hb Hl s2.
  assert (s2 = setLoading false
                 (setError (Some (Js.or_else detail "Generation failed"))
                    (forget (next_req s)
                       (park (emit (EGenerateProject (description s))
                                (setError None (setLoading true s))))))) as E.
  { subst s2. simpl. rewrite Hl. unfold handleGenerate. rewrite Hb. simpl.
    rewrite existsb_app. simpl. rewrite Nat.eqb_refl, orb_true_r. reflexivity. }
  rewrite E. unfold render. simpl.
  rewrite (or_else_nonempty detail "Generation failed" eq_refl). simpl.
  split; [reflexivity|].
  rewrite reports_app, submissions_app. simpl. rewrite app_nil_r.
  split; [reflexivity|]. split; [reflexivity|].
  unfold handleGenerate. simpl. rewrite Hb. simpl.
  rewrite !submissions_app. simpl. now rewrite <- app_assoc.
Qed.

Lemma rejected_submission_can_be_retried_witness :
  let s := step init (Change [97; 32]%N) in
  let s2 := run [Click; Settle 0 (Api.Rejected (Some ""))] s in
  error_line (render s2) = Some "Generation failed" /\
  submissions (log (step s2 Click)) = [[97; 32]%N; [97; 32]%N].
Proof.
  intros s s2.
  destruct (rejected_submission_can_be_retried s (Some "") eq_refl eq_refl)
    as (Hr & _ & _ & Hs).
  pose proof (f_equal error_line Hr) as He.
  vm_compute in He, Hs. vm_compute.
  exact (conj He Hs).
Defined.

End InputFormInvariants.

(** ** The page as a whole *)

Module ClientFacts.
Import Client.

Lemma skipn_past (A : Type) (l x : list A) : skipn (List.length l) (l ++ x) = x.
Proof. induction l as [|a l IH]; simpl; auto. Qed.

Lemma skipn_whole (A : Type) (l : list A) : skipn (List.length l) l = [].
Proof. induction l as [|a l IH]; simpl; auto. Qed.

(** Ticks and status answers are the coordinator's alone. *)
Lemma polls_run (h r : nat) (answers : list (Api.axios Api.snapshot))
      (c : state) :
  run (polls h r answers) c
  = {| form := form c;
       app := App.run (App.rounds h r answers) (app c) |}.
Proof.
  revert r c. induction answers as [|a rest IH]; intros r c; simpl.
  - now destruct c.
  - rewrite IH. reflexivity.
Qed.

(** What a form event hands to the coordinator. *)
Lemma form_event_delivery (c : state) (e : InputForm.event) :
  app (step c (Form e))
  = match e with
    | InputForm.Settle r (Api.Resolved data) =>
        if existsb (Nat.eqb r) (InputForm.pending (form c))
        then App.step (app c) (App.Generate (Api.project_id data))
        else app c
    | _ => app c
    end.
Proof.
  destruct e as [d| |r a]; simpl.
  - now rewrite skipn_whole.
  - destruct (InputForm.loading (form c)); [now rewrite skipn_whole|].
    unfold InputForm.handleGenerate.
    destruct (InputForm.blank _); [now rewrite skipn_whole|].
    simpl. now rewrite skipn_past.
  - destruct (existsb _ _).
    + destruct a as [data|detail]; simpl.
      * now rewrite skipn_past.
      * now rewrite skipn_whole.
    + destruct a; now rewrite skipn_whole.
Qed.

(** X10.  The coordinator adopts an identifier exactly when an outstanding
    generation request resolves, and it is the [project_id] of that response;
    typing, clicking, an answer to no outstanding request and a rejected
    request leave the polling session, its references and its intervals
    untouched. *)
Theorem only_a_resolved_generation_reaches_the_coordinator
  (c : state) (r : nat) :
  (forall d, app (step c (Form (InputForm.Change d))) = app c) /\
  app (step c (Form InputForm.Click)) = app c /\
  (forall detail,
     app (step c (Form (InputForm.Settle r (Api.Rejected detail)))) = app c) /\
  (forall data,
     app (step c (Form (InputForm.Settle r (Api.Resolved data))))
     = if existsb (Nat.eqb r) (InputForm.pending (form c))
       then App.step (app c) (App.Generate (Api.project_id data))
       else app c).
Proof.
  split; [intros d; apply (form_event_delivery c (InputForm.Change d))|].
  split; [apply (form_event_delivery c InputForm.Click)|].
  split.
  - intros detail.
    apply (form_event_delivery c (InputForm.Settle r (Api.Rejected detail))).
  - intros data.
    apply (form_event_delivery c (InputForm.Settle r (Api.Resolved data))).
Qed.

(** X11.  From the first key stroke to the ready page: a description that
    is not blank is typed and submitted, the server answers with the
    identifier [p], the status is polled and comes back not ready any number
    of times and then ready with a preview URL and a zip URL.  Then one
    generation request was sent, one status query per answer, all for [p], no
    interval is armed any more, the submit button is enabled again, the frame
    shows exactly the preview URL and the download button goes to exactly the
    zip URL. *)
Theorem submit_poll_preview_download
  (d : InputForm.text) (p u z : string)
  (ns : list Api.snapshot) (rd : Api.snapshot) :
  InputForm.blank d = false ->
  String.eqb p "" = false ->
  forallb (fun n => negb (App.is_ready n)) ns = true ->
  App.is_ready rd = true ->
  Api.preview_url rd = Some u -> String.eqb u "" = false ->
  Api.zip_url rd = Some z -> String.eqb z "" = false ->
  let c := run ([Form (InputForm.Change d); Form InputForm.Click;
                 Form (InputForm.Settle 0
                         (Api.Resolved {| Api.project_id := Some p |}))]
                  ++ polls 0 0 (map Api.Resolved (ns ++ [rd]))) init in
  InputForm.submissions (InputForm.log (form c)) = [d] /\
  InputForm.button_disabled (InputForm.render (form c)) = false /\
  App.queries (App.log (app c)) = repeat p (S (List.length ns)) /\
  App.timers (app c) = [] /\
  App.renderPreview (app c) = View.PreviewFrame u /\
  View.activate (App.renderDownload (app c)) = Some z.
Proof.
  intros Hb Hp Hn Hrd Hu Hu' Hz Hz' c.
  set (t := {| App.handle := 0; App.pid := p;
               App.interval := App.POLL_INTERVAL |}).
  set (a0 := App.step App.init (App.Generate (Some p))).
  assert (App.timers a0 = [t] /\ App.next_req a0 = 0 /\
          App.log a0 = [App.ESetInterval 0 p App.POLL_INTERVAL] /\
          App.requests_fresh a0) as (Et & En & El & Hf).
  { subst a0. simpl. unfold App.commit. simpl. unfold App.pollEffect. simpl.
    rewrite Hp. simpl. repeat split. intros q []. }
  assert (App.find_timer (App.handle t) a0 = Some t) as Hfind.
  { unfold App.find_timer. rewrite Et. reflexivity. }
  assert (c = {| form := InputForm.setLoading false
                           (InputForm.emit (InputForm.EOnGenerate (Some p))
                              (InputForm.forget 0
                                 (InputForm.handleGenerate
                                    (InputForm.setDescription d InputForm.init))));
                 app := App.run (App.rounds 0 0 (map Api.Resolved (ns ++ [rd])))
                          a0 |}) as E.
  { subst c. unfold run. rewrite fold_left_app.
    fold (run (polls 0 0 (map Api.Resolved (ns ++ [rd])))).
    rewrite polls_run. simpl.
    unfold InputForm.handleGenerate. simpl. rewrite Hb. simpl. reflexivity. }
  pose proof (PollingFacts.rounds_until_ready ns rd t a0 Hf Hfind Hn Hrd) as Er.
  simpl App.handle in Er. rewrite En in Er.
  rewrite E. cbn [form app]. rewrite Er.
  destruct (PollingFacts.polled_n_frame (List.length ns) p a0)
    as (E1 & _ & _ & _ & _ & _ & E7).
  unfold InputForm.handleGenerate. simpl. rewrite Hb. simpl.
  split; [reflexivity|]. split; [reflexivity|].
  unfold App.renderPreview, App.renderDownload. simpl.
  rewrite E1, Et, E7, El, Hu, Hz. simpl. rewrite Hu', Hz'. simpl.
  split; [|repeat split].
  rewrite !AppFacts.queries_app, PollingFacts.queries_repeat.
  cbn [App.queries flat_map app].
  rewrite !app_nil_r, <- repeat_cons. reflexivity.
Qed.

Lemma submit_poll_preview_download_witness :
  let building := {| Api.status := Some "building"; Api.preview_url := None;
                     Api.zip_url := None |} in
  let ready := {| Api.status := Some "ready";
                  Api.preview_url := Some "http://h/p1/preview";
                  Api.zip_url := Some "http://h/p1.zip" |} in
  let c := run [Form (InputForm.Change [97; 32; 98]%N); Form InputForm.Click;
                Form (InputForm.Settle 0
                        (Api.Resolved {| Api.project_id := Some "p1" |}));
                Tick 0; Status 0 (Api.Resolved building);
                Tick 0; Status 1 (Api.Resolved ready)] init in
  App.renderPreview (app c) = View.PreviewFrame "http://h/p1/preview" /\
  View.activate (App.renderDownload (app c)) = Some "http://h/p1.zip".
Proof.
  intros building ready c.
  destruct (submit_poll_preview_download [97; 32; 98]%N "p1"
              "http://h/p1/preview" "http://h/p1.zip" [building] ready
              eq_refl eq_refl eq_refl eq_refl eq_refl eq_refl eq_refl eq_refl)
    as (_ & _ & _ & _ & Hf & Hd).
  vm_compute in Hf, Hd. vm_compute.
  exact (conj Hf Hd).
Defined.

End ClientFacts.

(** ** The preview lifecycle over any sequence of events *)

Module PreviewInvariants.
Import Preview PreviewFacts.

Lemma occurrences_app (c : call) (l1 l2 : list call) :
  occurrences c (l1 ++ l2) = occurrences c l1 + occurrences c l2.
Proof. unfold occurrences. now rewrite filter_app, length_app. Qed.

Lemma parked_app (p : string) (l1 l2 : list (nat * waiting)) :
  parked_fetches p (l1 ++ l2) = parked_fetches p l1 + parked_fetches p l2.
Proof. unfold parked_fetches. now rewrite filter_app, length_app. Qed.

Lemma parked_forget_le (p : string) (r : nat) (l : list (nat * waiting)) :
  parked_fetches p (filter (fun q => negb (Nat.eqb (fst q) r)) l)
  <= parked_fetches p l.
Proof.
  unfold parked_fetches. induction l as [|q l IH]; simpl; auto.
  destruct (Nat.eqb (fst q) r); simpl;
    destruct (snd q) as [p'|p'|p']; try destruct (String.eqb p p');
    simpl; lia.
Qed.

Lemma parked_forget_lt (p : string) (r : nat) (l : list (nat * waiting)) :
  option_map snd (find (fun q => Nat.eqb (fst q) r) l) = Some (StopThenFetch p) ->
  S (parked_fetches p (filter (fun q => negb (Nat.eqb (fst q) r)) l))
  <= parked_fetches p l.
Proof.
  induction l as [|q l IH]; simpl; [discriminate|].
  destruct (Nat.eqb (fst q) r) eqn:E; simpl.
  - intros H. injection H as H.
    pose proof (parked_forget_le p r l) as Hle.
    unfold parked_fetches in *. simpl. rewrite H, String.eqb_refl. simpl. lia.
  - intros H. specialize (IH H). unfold parked_fetches in *. simpl.
    destruct (snd q) as [p'|p'|p']; try destruct (String.eqb p p');
      simpl; lia.
Qed.

(** Queries sent for [p], and effect continuations for [p] that will send
    one, are covered by the stop requests already sent for [p]. *)
Lemma stops_cover_step (p : string) (s : state) (e : event) :
  occurrences (CCheckStatus p) (calls s) + parked_fetches p (pending s)
  <= occurrences (CStopPreview p) (calls s) ->
  occurrences (CCheckStatus p) (calls (step s e))
  + parked_fetches p (pending (step s e))
  <= occurrences (CStopPreview p) (calls (step s e)).
Proof.
  intros H. destruct e as [id|r x]; simpl.
  - destruct (Js.same (projectId s) id); [exact H|].
    unfold effect, runCleanup.
    destruct (cleanup s) as [a|]; destruct id as [b|]; simpl;
      try destruct (String.eqb b ""); simpl;
      rewrite ?occurrences_app, ?parked_app; unfold occurrences, parked_fetches;
      simpl; unfold occurrences, parked_fetches in H;
      repeat match goal with
             | |- context [String.eqb p ?q] => destruct (String.eqb p q)
             end; simpl; lia.
  - pose proof (parked_forget_le p r (pending s)) as Hle.
    destruct (find_pending r s) as [[p'|p'|p']|] eqn:Ef; [| | |exact H].
    + unfold find_pending in Ef.
      assert (calls (fetchPreview p'
                 (cleanupPreviousPreview_done (Api.stopPreview (as_stop x))
                    (forget r s))) = calls s ++ [CCheckStatus p'] /\
              pending (fetchPreview p'
                 (cleanupPreviousPreview_done (Api.stopPreview (as_stop x))
                    (forget r s)))
              = filter (fun q => negb (Nat.eqb (fst q) r)) (pending s)
                  ++ [(next_req s, Check p')]) as [-> ->].
      { destruct (Api.stopPreview (as_stop x)); simpl; auto. }
      rewrite !occurrences_app, parked_app.
      unfold occurrences at 2 4. unfold parked_fetches at 2. simpl.
      destruct (String.eqb p p') eqn:E; simpl.
      * apply String.eqb_eq in E. subst p'.
        pose proof (parked_forget_lt p r (pending s) Ef). lia.
      * lia.
    + assert (calls (cleanupPreviousPreview_done (Api.stopPreview (as_stop x))
                       (forget r s)) = calls s /\
              pending (cleanupPreviousPreview_done (Api.stopPreview (as_stop x))
                       (forget r s))
              = filter (fun q => negb (Nat.eqb (fst q) r)) (pending s))
        as [-> ->] by (destruct (Api.stopPreview (as_stop x)); simpl; auto).
      lia.
    + assert (calls (fetchPreview_done (Api.checkStatus (as_check x))
                       (forget r s)) = calls s /\
              pending (fetchPreview_done (Api.checkStatus (as_check x))
                       (forget r s))
              = filter (fun q => negb (Nat.eqb (fst q) r)) (pending s))
        as [-> ->] by (destruct (Api.checkStatus (as_check x)); simpl; auto).
      lia.
Qed.

(** X12.  In this component a status query for an identifier is never sent
    without a stop request for that same identifier having been sent first:
    at any moment the queries sent for [p] do not outnumber the stop requests
    sent for [p]. *)
Theorem every_query_follows_a_stop (s : state) (p : string) :
  reachable s ->
  occurrences (CCheckStatus p) (calls s)
  <= occurrences (CStopPreview p) (calls s).
Proof.
  intros [evs ->].
  assert (occurrences (CCheckStatus p) (calls init)
          + parked_fetches p (pending init)
          <= occurrences (CStopPreview p) (calls init)) as H by (cbv; lia).
  revert H. generalize init.
  induction evs as [|e evs IH]; simpl; intros s H; [lia|].
  apply IH, stops_cover_step, H.
Qed.

Lemma every_query_follows_a_stop_witness :
  let s := run [Render (Some "A");
                Settle 0 (StopSettled (Api.Rejected None));
                Render (Some "B");
                Settle 3 (StopSettled (Api.Resolved tt))] init in
  calls s = [CStopPreview "A"; CCheckStatus "A"; CStopPreview "A";
             CStopPreview "B"; CCheckStatus "B"] /\
  occurrences (CCheckStatus "B") (calls s)
  <= occurrences (CStopPreview "B") (calls s).
Proof.
  intros s. split; [reflexivity|].
  exact (every_query_follows_a_stop s "B" (ex_intro _ _ eq_refl)).
Defined.

(** X13.  A stop request that fails is only written to the console: when
    the stop sent by the effect cleanup is rejected, one warning line with
    the message is added and nothing else moves; what the component shows,
    its stored preview URL and error and the requests it has sent are as
    before. *)
Theorem failed_stop_is_only_logged
  (s : state) (r : nat) (p : string) (detail : option string) :
  find_pending r s = Some (StopOnly p) ->
  let s' := step s (Settle r (StopSettled (Api.Rejected detail))) in
  warnings s'
  = warnings s ++ [("Failed to stop previous preview: "
                    ++ Js.or_else detail "Failed to stop preview")%string] /\
  render s' = render s /\
  previewUrl s' = previewUrl s /\
  error s' = error s /\
  calls s' = calls s /\
  next_req s' = next_req s.
Proof.
  intros Hq. simpl. rewrite Hq. simpl. repeat split.
Qed.

Lemma failed_stop_is_only_logged_witness :
  let s := run [Render (Some "A"); Render (Some "B")] init in
  let s' := step s (Settle 1 (StopSettled (Api.Rejected (Some "gone")))) in
  warnings s' = ["Failed to stop previous preview: gone"] /\
  calls s' = [CStopPreview "A"; CStopPreview "A"; CStopPreview "B"].
Proof.
  intros s s'.
  destruct (failed_stop_is_only_logged s 1 "A" (Some "gone") eq_refl)
    as (Hw & _ & _ & _ & Hc & _).
  vm_compute in Hw, Hc. vm_compute. exact (conj Hw Hc).
Defined.

(** The effect of a render with a new, non-empty identifier parks its
    continuation on the last request sent. *)
Lemma render_parks (s : state) (B : string) :
  requests_fresh s ->
  String.eqb B "" = false ->
  Js.same (projectId s) (Some B) = false ->
  let s1 := step s (Render (Some B)) in
  exists l,
    pending s1 = l ++ [(pred (next_req s1), StopThenFetch B)] /\
    (forall q, In q l -> fst q < pred (next_req s1)) /\
    next_req s1 = S (pred (next_req s1)) /\
    previewUrl s1 = previewUrl s.
Proof.
  intros Hf HB Hs. simpl. rewrite Hs. unfold effect, runCleanup.
  destruct (cleanup s) as [a|]; simpl; rewrite HB; simpl.
  - exists (pending s ++ [(next_req s, StopOnly a)]).
    rewrite <- app_assoc. repeat split.
    intros q Hq. apply in_app_or in Hq as [Hq|[<-|[]]]; simpl; auto.
    specialize (Hf q Hq). lia.
  - exists (pending s). repeat split. exact Hf.
Qed.

(** X14.  After a render with a new identifier the component shows what the
    status query for it brings: the loading line until the query is
    answered; then the frame on the response's preview URL, or the
    no-preview line when the response has none; or, when the query is
    rejected, the error line with the message, whatever preview URL is still
    stored from before. *)
Theorem preview_shows_the_answer (s : state) (B : string) (x : settled) :
  reachable s ->
  String.eqb B "" = false ->
  Js.same (projectId s) (Some B) = false ->
  let s1 := step s (Render (Some B)) in
  let s2 := step s1 (Settle (pred (next_req s1)) x) in
  render s2 = VLoading /\
  (forall response,
     render (step s2 (Settle (next_req s1)
                        (CheckSettled (Api.Resolved response))))
     = match Api.preview_url response with
       | Some u => if String.eqb u "" then VNoPreview else VFrame u
       | None => VNoPreview
       end) /\
  (forall detail,
     let s3 := step s2 (Settle (next_req s1)
                          (CheckSettled (Api.Rejected detail))) in
     render s3 = VError (Js.or_else detail "Status check failed") /\
     previewUrl s3 = previewUrl s).
Proof.
  intros Hr HB Hs s1 s2.
  pose proof (preview_reachable_invariant s Hr) as (Hf & _).
  destruct (render_parks s B Hf HB Hs) as (l & Ep & Hl & En & Eu).
  fold s1 in Ep, Hl, En, Eu.
  set (r := pred (next_req s1)) in *.
  assert (find_pending r s1 = Some (StopThenFetch B)) as Hfind.
  { unfold find_pending. rewrite Ep. now rewrite (find_parked _ _ _ _ Hl). }
  assert (loading s2 = true /\ error s2 = None /\
          previewUrl s2 = previewUrl s /\
          find_pending (next_req s1) s2 = Some (Check B)) as (El & Ee & Eu2 & Hc).
  { subst s2. simpl. rewrite Hfind.
    assert (forall s0 : state,
              pending s0 = filter (fun q => negb (Nat.eqb (fst q) r)) (pending s1) ->
              next_req s0 = next_req s1 -> previewUrl s0 = previewUrl s1 ->
              loading (fetchPreview B s0) = true /\
              error (fetchPreview B s0) = None /\
              previewUrl (fetchPreview B s0) = previewUrl s /\
              find_pending (next_req s1) (fetchPreview B s0) = Some (Check B))
      as Hgen.
    { intros s0 P N U. unfold find_pending. simpl. rewrite P, N, U, Eu.
      repeat split.
      rewrite (find_parked (next_req s1) (Check B) _ []); [reflexivity|].
      intros q Hq. apply filter_In in Hq as [Hq _].
      rewrite Ep in Hq. apply in_app_or in Hq as [Hq|[<-|[]]].
      - specialize (Hl q Hq). lia.
      - simpl. lia. }
    destruct (Api.stopPreview (as_stop x)); apply Hgen; reflexivity. }
  split; [unfold render; now rewrite El|]. split.
  - intros response. simpl. rewrite Hc. unfold render. simpl.
    rewrite Ee. reflexivity.
  - intros detail. simpl. rewrite Hc. unfold render. simpl.
    rewrite (or_else_nonempty detail "Status check failed" eq_refl).
    split; [reflexivity|exact Eu2].
Qed.

Lemma preview_shows_the_answer_witness :
  let first := {| Api.status := None; Api.preview_url := Some "http://h/a";
                  Api.zip_url := None |} in
  let s := run [Render (Some "A"); Settle 0 (StopSettled (Api.Resolved tt));
                Settle 1 (CheckSettled (Api.Resolved first))] init in
  let s2 := run [Render (Some "B");
                 Settle 3 (StopSettled (Api.Resolved tt))] s in
  render s = VFrame "http://h/a" /\
  render s2 = VLoading /\
  render (step s2 (Settle 4 (CheckSettled (Api.Rejected None))))
  = VError "Status check failed".
Proof.
  intros first s s2. split; [reflexivity|].
  destruct (preview_shows_the_answer s "B" (StopSettled (Api.Resolved tt))
              (ex_intro _ _ eq_refl) eq_refl eq_refl) as (Hl & _ & He).
  destruct (He None) as (He' & _).
  vm_compute in Hl, He'. vm_compute. exact (conj Hl He').
Defined.

End PreviewInvariants.

(** ** The download endpoint and the coordinator without polling *)

Module DownloadFacts.

Lemma append_cancel_l (a b c : string) :
  (a ++ b)%string = (a ++ c)%string -> b = c.
Proof.
  induction a as [|x a IH]; simpl; auto.
  intros H. injection H as H. auto.
Qed.

(** X15.  The download address built from a project identifier is the
    configured base address, or [http://localhost:8000] when none is
    configured or it is empty, followed by [/api/download/] and the
    identifier; two different identifiers never share an address. *)
Theorem download_address_by_identifier (env : option string) (p q : string) :
  Api.downloadZip_by_id env p
  = ((if Js.truthy env
      then match env with Some base => base | None => "" end
      else "http://localhost:8000") ++ "/api/download/" ++ p)%string /\
  (Api.downloadZip_by_id env p = Api.downloadZip_by_id env q -> p = q).
Proof.
  split.
  - unfold Api.downloadZip_by_id, Api.API_URL, Js.or_else, Js.truthy.
    destruct env as [b|]; [destruct (String.eqb b "")|]; reflexivity.
  - unfold Api.downloadZip_by_id. intros H.
    apply append_cancel_l in H. apply (append_cancel_l "/api/download/") in H.
    exact H.
Qed.

Lemma download_address_by_identifier_witness :
  Api.downloadZip_by_id (Some "") "p1"
  = "http://localhost:8000/api/download/p1" /\
  (Api.downloadZip_by_id (Some "https://api.example") "p1"
   = Api.downloadZip_by_id (Some "https://api.example") "p1" -> "p1" = "p1").
Proof.
  destruct (download_address_by_identifier (Some "") "p1" "p1") as (H1 & _).
  destruct (download_address_by_identifier (Some "https://api.example")
              "p1" "p1") as (_ & H2).
  exact (conj H1 H2).
Defined.

Lemma appv1_run_error (ids : list (option string)) (s : AppV1.state) :
  AppV1.error s = None -> AppV1.error (AppV1.run ids s) = None.
Proof.
  revert s. induction ids as [|id ids IH]; simpl; intros s H; auto.
Qed.

Lemma last_default (A : Type) (a : A) (l : list A) (d d' : A) :
  last (a :: l) d = last (a :: l) d'.
Proof.
  revert a. induction l as [|b l IH]; intros a; [reflexivity|].
  change (last (b :: l) d = last (b :: l) d'). apply IH.
Qed.

Lemma appv1_run_last (ids : list (option string)) (s : AppV1.state) :
  AppV1.projectId (AppV1.run ids s) = last ids (AppV1.projectId s).
Proof.
  revert s. induction ids as [|id ids IH]; intros s; auto.
  change (AppV1.projectId (AppV1.run ids (AppV1.handleGenerate id s))
          = last (id :: ids) (AppV1.projectId s)).
  rewrite IH. destruct ids as [|o ids]; [reflexivity|].
  change (last (o :: ids) id = last (o :: ids) (AppV1.projectId s)).
  apply last_default.
Qed.

(** X16.  In the coordinator without polling, whatever identifiers the
    input form has reported, the one held is the last reported; the error
    line is never shown; the preview and the download button are mounted
    exactly when the identifier held is not empty, and the button is then
    enabled at once and goes to the download address of that identifier. *)
Theorem coordinator_without_polling
  (env : option string) (ids : list (option string)) :
  let s := AppV1.run ids AppV1.init in
  AppV1.projectId s = last ids None /\
  AppV1.error_line (AppV1.render env s) = None /\
  AppV1.preview (AppV1.render env s)
  = (if Js.truthy (last ids None) then last ids None else None) /\
  View.enabled (AppV1.download (AppV1.render env s)) = Js.truthy (last ids None) /\
  View.activate (AppV1.download (AppV1.render env s))
  = (if Js.truthy (last ids None)
     then option_map (Api.downloadZip_by_id env) (last ids None)
     else None).
Proof.
  intros s.
  assert (AppV1.projectId s = last ids None) as Ep
      by (subst s; apply (appv1_run_last ids AppV1.init)).
  assert (AppV1.error s = None) as Ee
      by (subst s; apply appv1_run_error; reflexivity).
  unfold AppV1.render. simpl. rewrite Ep, Ee. simpl.
  split; [reflexivity|]. split; [reflexivity|]. split; [reflexivity|].
  destruct (last ids None) as [p|]; simpl; auto.
  unfold Js.truthy. destruct (String.eqb p "") eqn:E; simpl; auto.
  rewrite E. simpl. auto.
Qed.

End DownloadFacts.
